(** * data-paradox: the round lifecycle and settlement engine of [server.ts]

    A shallow embedding of the Express server of the repository: the four
    SQLite tables, the eleven HTTP routes, the WebSocket hub, and the scoring
    computation of the reveal route, followed by the properties the
    specification states about them.

    Conventions of the embedding.
    - A table is the list of its rows in rowid order (the order of a table
      scan); [settings], keyed by its primary key, is a finite map.
    - A JavaScript number / SQLite REAL is a value of a type [num] carrying
      the operations the server uses ([JsNumber]).  Two instances are given:
      [float] (IEEE 754 binary64, which is what the server computes with) and
      [Qc] (exact rationals, for the statements about sums that only hold up
      to rounding on binary64).
    - Node runs every handler to completion and better-sqlite3 is
      synchronous, so a handler is a function from the state before the
      request to the state after it and the response.
    - Whether SQLite enforces the [FOREIGN KEY] clauses of the schema is a
      build option of the driver and not visible in [server.ts]; it is the
      parameter [foreign_keys] (better-sqlite3 compiles SQLite with
      SQLITE_DEFAULT_FOREIGN_KEYS=1).
    - Row ids are unbounded integers; request fields have the types the
      client sends (numbers for ids and values, strings for names).
    - SQLite keeps NULL where a REAL would be NaN.  The score and balance
      columns of the model have no NULL, so every statement about a value
      that a reveal stores carries the hypothesis that the value is not NaN
      ([storable]); where the scoring yields NaN (an infinite actual value,
      or [1 + errorPercent = 0] with a bid of 0) the model says nothing
      about the row. *)

From Stdlib Require Import ZArith QArith Qcanon Uint63 PrimFloat Lia.
From stdpp Require Import gmap strings list.

Local Open Scope Z_scope.

(** ** Numbers *)

(** The arithmetic and comparisons of JavaScript numbers that [server.ts]
    uses.  [a > b] is [num_ltb b a]. *)
Class JsNumber (num : Type) := {
  num_of_Z : Z -> num;                 (* integer literals: 0, 1, 2, 3, 5, ... *)
  num_1_5 : num;                       (* the literal 1.5 *)
  num_add : num -> num -> num;         (* + *)
  num_sub : num -> num -> num;         (* - *)
  num_mul : num -> num -> num;         (* * *)
  num_div : num -> num -> num;         (* / *)
  num_abs : num -> num;                (* Math.abs *)
  num_eqb : num -> num -> bool;        (* === *)
  num_ltb : num -> num -> bool;        (* < *)
  num_leb : num -> num -> bool;        (* <= *)
}.

Definition float_of_Z (z : Z) : float :=
  match z with
  | Z0 => PrimFloat.zero
  | Zpos _ => PrimFloat.of_uint63 (Uint63.of_Z z)
  | Zneg p => PrimFloat.opp (PrimFloat.of_uint63 (Uint63.of_Z (Zpos p)))
  end.

(** IEEE 754 binary64: the numbers of the running server. *)
#[export] Instance float_JsNumber : JsNumber float := {|
  num_of_Z := float_of_Z;
  num_1_5 := 1.5%float;
  num_add := PrimFloat.add;
  num_sub := PrimFloat.sub;
  num_mul := PrimFloat.mul;
  num_div := PrimFloat.div;
  num_abs := PrimFloat.abs;
  num_eqb := PrimFloat.eqb;
  num_ltb := PrimFloat.ltb;
  num_leb := PrimFloat.leb;
|}.

Definition Qc_abs (x : Qc) : Qc := if Qle_bool 0 x then x else Qcopp x.
Definition Qc_ltb (x y : Qc) : bool := negb (Qle_bool y x).

(** Exact rational arithmetic: the same formulas without rounding.  (A
    quotient by zero is 0 here and an infinity on binary64.) *)
#[export] Instance Qc_JsNumber : JsNumber Qc := {|
  num_of_Z := fun z => Q2Qc (inject_Z z);
  num_1_5 := Q2Qc (3 # 2);
  num_add := Qcplus;
  num_sub := Qcminus;
  num_mul := Qcmult;
  num_div := Qcdiv;
  num_abs := Qc_abs;
  num_eqb := Qc_eq_bool;
  num_ltb := Qc_ltb;
  num_leb := fun x y => Qle_bool x y;
|}.

(** ** The database schema *)

(** [status TEXT DEFAULT 'open' -- 'open', 'closed', 'revealed'] *)
Inductive round_status := open | closed | revealed.

#[export] Instance round_status_eq_dec : EqDecision round_status.
Proof. solve_decision. Defined.

Section Schema.
Context {num : Type}.

Record team := {
  t_id : Z;               (* id INTEGER PRIMARY KEY AUTOINCREMENT *)
  t_name : string;        (* name TEXT UNIQUE *)
  t_balance : num;        (* balance REAL DEFAULT 2000 *)
}.

Record round := {
  r_id : Z;                       (* id INTEGER PRIMARY KEY AUTOINCREMENT *)
  r_theme : string;               (* theme TEXT *)
  r_actual_value : option num;    (* actual_value REAL, NULL until revealed *)
  r_status : round_status;        (* status TEXT DEFAULT 'open' *)
}.

Record submission := {
  s_id : Z;                       (* id INTEGER PRIMARY KEY AUTOINCREMENT *)
  s_team_id : Z;                  (* team_id INTEGER REFERENCES teams(id) *)
  s_round_id : Z;                 (* round_id INTEGER REFERENCES rounds(id) *)
  s_predicted_value : num;        (* predicted_value REAL *)
  s_bid_amount : num;             (* bid_amount REAL *)
  s_score : num;                  (* score REAL DEFAULT 0 *)
  s_error_percent : option num;   (* error_percent REAL, NULL until settled *)
}.

(** The four tables and the rows of [sqlite_sequence] (the largest rowid
    ever handed out per AUTOINCREMENT table; 0 when the row is absent). *)
Record database := {
  teams : list team;
  rounds : list round;
  settings : gmap string string;
  submissions : list submission;
  seq_teams : Z;
  seq_rounds : Z;
  seq_submissions : Z;
}.
End Schema.

Arguments team : clear implicits.
Arguments round : clear implicits.
Arguments submission : clear implicits.
Arguments database : clear implicits.

(** ** Messages and responses *)

(** The objects passed to [broadcast]. *)
Inductive event {num : Type} :=
| SETTINGS_UPDATED (key value : string)
| ROUND_STARTED (id : Z) (theme : string) (status : round_status)
| SUBMISSION_RECEIVED (teamId : Z)
| ROUND_REVEALED (roundId : Z) (actualValue : num)
| GAME_RESET.
Arguments event : clear implicits.

(** [WebSocket.readyState] *)
Inductive ready_state := CONNECTING | OPEN | CLOSING | CLOSED.

#[export] Instance ready_state_eq_dec : EqDecision ready_state.
Proof. solve_decision. Defined.

(** A member of the [clients] set: its socket state and what was sent to it. *)
Record client {num : Type} := {
  readyState : ready_state;
  received : list (event num);
}.
Arguments client : clear implicits.

(** The JSON bodies the routes answer with. *)
Inductive json {num : Type} :=
| JSuccess                                        (* { success: true } *)
| JError (error : string)                         (* { error: ... } *)
| JSettings (m : gmap string string)
| JTeam (id : Z) (name : string) (balance : num)
| JTeams (l : list (team num))
| JRound (r : option (round num))                 (* round || null *)
| JStarted (id : Z) (theme : string)              (* { id, theme } *)
| JSubmissions (l : list (submission num * string))
| JUncaught.                                      (* Express's default error page *)
Arguments json : clear implicits.

Record response {num : Type} := Resp {
  status : Z;
  body : json num;
}.
Arguments response : clear implicits.
Arguments Resp {num} status body.

(** The process: the database handle [db] and the [clients] set. *)
Record server {num : Type} := Server {
  db : database num;
  clients : list (client num);
}.
Arguments server : clear implicits.
Arguments Server {num} db clients.

(** ** The server *)

Section Server.
Context {num : Type} `{JsNumber num}.

(** The driver's foreign-key enforcement and [process.env.ADMIN_PASSWORD]. *)
Variable foreign_keys : bool.
Variable ADMIN_PASSWORD : option string.

Local Abbreviation team := (team num).
Local Abbreviation round := (round num).
Local Abbreviation submission := (submission num).
Local Abbreviation database := (database num).
Local Abbreviation server := (server num).
Local Abbreviation response := (response num).
Local Abbreviation event := (event num).
Local Abbreviation client := (client num).

(** *** Table updates *)

Definition set_teams (d : database) (ts : list team) : database :=
  {| teams := ts; rounds := rounds d; settings := settings d;
     submissions := submissions d; seq_teams := seq_teams d;
     seq_rounds := seq_rounds d; seq_submissions := seq_submissions d |}.

Definition set_rounds (d : database) (rs : list round) : database :=
  {| teams := teams d; rounds := rs; settings := settings d;
     submissions := submissions d; seq_teams := seq_teams d;
     seq_rounds := seq_rounds d; seq_submissions := seq_submissions d |}.

Definition set_settings (d : database) (m : gmap string string) : database :=
  {| teams := teams d; rounds := rounds d; settings := m;
     submissions := submissions d; seq_teams := seq_teams d;
     seq_rounds := seq_rounds d; seq_submissions := seq_submissions d |}.

Definition set_submissions (d : database) (ss : list submission) : database :=
  {| teams := teams d; rounds := rounds d; settings := settings d;
     submissions := ss; seq_teams := seq_teams d;
     seq_rounds := seq_rounds d; seq_submissions := seq_submissions d |}.

(** AUTOINCREMENT: one more than the largest rowid the table holds or has
    ever held. *)
Definition max_rowid (ids : list Z) : Z := foldr Z.max 0 ids.
Definition next_rowid (seq : Z) (ids : list Z) : Z := Z.max seq (max_rowid ids) + 1.

(** [INSERT INTO teams (name) VALUES (?)] *)
Definition insert_team (d : database) (name : string) : Z * database :=
  let id := next_rowid (seq_teams d) (map t_id (teams d)) in
  (id,
   {| teams := teams d ++ [{| t_id := id; t_name := name; t_balance := num_of_Z 2000 |}];
      rounds := rounds d; settings := settings d; submissions := submissions d;
      seq_teams := id; seq_rounds := seq_rounds d;
      seq_submissions := seq_submissions d |}).

(** [INSERT INTO rounds (theme) VALUES (?)] *)
Definition insert_round (d : database) (theme : string) : Z * database :=
  let id := next_rowid (seq_rounds d) (map r_id (rounds d)) in
  (id,
   {| teams := teams d;
      rounds := rounds d ++ [{| r_id := id; r_theme := theme;
                                r_actual_value := None; r_status := open |}];
      settings := settings d; submissions := submissions d;
      seq_teams := seq_teams d; seq_rounds := id;
      seq_submissions := seq_submissions d |}).

(** [INSERT INTO submissions (team_id, round_id, predicted_value, bid_amount)
    VALUES (?, ?, ?, ?)] *)
Definition insert_submission (d : database) (teamId roundId : Z)
    (predictedValue bidAmount : num) : database :=
  let id := next_rowid (seq_submissions d) (map s_id (submissions d)) in
  {| teams := teams d; rounds := rounds d; settings := settings d;
     submissions := submissions d ++
       [{| s_id := id; s_team_id := teamId; s_round_id := roundId;
           s_predicted_value := predictedValue; s_bid_amount := bidAmount;
           s_score := num_of_Z 0; s_error_percent := None |}];
     seq_teams := seq_teams d; seq_rounds := seq_rounds d;
     seq_submissions := id |}.

(** What the FOREIGN KEY clauses of [submissions] demand of a new row. *)
Definition foreign_key_ok (d : database) (teamId roundId : Z) : bool :=
  existsb (fun t => t_id t =? teamId) (teams d)
  && existsb (fun r => r_id r =? roundId) (rounds d).

(** [UPDATE rounds SET status = 'revealed' WHERE status != 'revealed'] *)
Definition force_revealed (r : round) : round :=
  if decide (r_status r <> revealed)
  then {| r_id := r_id r; r_theme := r_theme r;
          r_actual_value := r_actual_value r; r_status := revealed |}
  else r.

(** [UPDATE rounds SET actual_value = ?, status = 'revealed' WHERE id = ?] *)
Definition update_round (actualValue : num) (roundId : Z) (r : round) : round :=
  if r_id r =? roundId
  then {| r_id := r_id r; r_theme := r_theme r;
          r_actual_value := Some actualValue; r_status := revealed |}
  else r.

(** [UPDATE submissions SET score = ?, error_percent = ? WHERE id = ?] *)
Definition update_submission (finalScore errorPercent : num) (id : Z)
    (sub : submission) : submission :=
  if s_id sub =? id
  then {| s_id := s_id sub; s_team_id := s_team_id sub;
          s_round_id := s_round_id sub;
          s_predicted_value := s_predicted_value sub;
          s_bid_amount := s_bid_amount sub;
          s_score := finalScore; s_error_percent := Some errorPercent |}
  else sub.

(** [UPDATE teams SET balance = balance - ? + ? WHERE id = ?] *)
Definition update_balance (bid_amount finalScore : num) (id : Z) (t : team) : team :=
  if t_id t =? id
  then {| t_id := t_id t; t_name := t_name t;
          t_balance := num_add (num_sub (t_balance t) bid_amount) finalScore |}
  else t.

(** [SELECT * FROM rounds ORDER BY id DESC LIMIT 1] *)
Definition current_round (d : database) : option round :=
  foldl (fun best r =>
           match best with
           | None => Some r
           | Some b => if r_id b <? r_id r then Some r else Some b
           end) None (rounds d).

(** [SELECT * FROM teams ORDER BY balance DESC]; rows with equal balances
    come in rowid order.  [insert_by_balance t l] puts a row [t] that
    precedes all rows of the sorted [l] in the table. *)
Fixpoint insert_by_balance (t : team) (l : list team) : list team :=
  match l with
  | [] => [t]
  | u :: l' => if num_ltb (t_balance t) (t_balance u) then u :: insert_by_balance t l'
               else t :: l
  end.
Definition order_by_balance_desc (l : list team) : list team :=
  foldr insert_by_balance [] l.

(** [SELECT s.*, t.name as team_name FROM submissions s JOIN teams t
    ON s.team_id = t.id WHERE s.round_id = ?] *)
Definition submissions_with_team_name (d : database) (roundId : Z)
    : list (submission * string) :=
  flat_map (fun sub =>
              map (fun t => (sub, t_name t))
                  (List.filter (fun t => t_id t =? s_team_id sub) (teams d)))
           (List.filter (fun sub => s_round_id sub =? roundId) (submissions d)).


(** *** The WebSocket hub *)

Definition send (c : client) (data : event) : client :=
  {| readyState := readyState c; received := received c ++ [data] |}.

(** [function broadcast(data)]: the message goes to every client whose
    socket is OPEN. *)
Definition broadcast (data : event) (cs : list client) : list client :=
  map (fun c => if decide (readyState c = OPEN) then send c data else c) cs.

(** [wss.on("connection", ...)], a socket starting to close, and
    [ws.on("close", ...)] for the [i]-th member of the set. *)
Definition ws_connection (s : server) : server :=
  Server (db s) (clients s ++ [{| readyState := OPEN; received := [] |}]).

Definition ws_closing (s : server) (i : nat) : server :=
  Server (db s)
         (alter (fun c => {| readyState := CLOSING; received := received c |}) i (clients s)).

Definition ws_close (s : server) (i : nat) : server :=
  Server (db s) (delete i (clients s)).

(** *** Authentication *)

(** [process.env.ADMIN_PASSWORD || 'admin123'] *)
Definition correctPassword : string :=
  match ADMIN_PASSWORD with
  | Some p => if decide (p = "") then "admin123" else p
  | None => "admin123"
  end.

(** [app.post("/api/admin/login")] *)
Definition login (s : server) (password : option string) : server * response :=
  if decide (password = Some correctPassword)
  then (s, Resp 200 JSuccess)
  else (s, Resp 401 (JError "Incorrect password")).

(** The [adminAuth] middleware, in front of the handler [next]. *)
Definition adminAuth (password : option string) (next : server -> server * response)
    (s : server) : server * response :=
  if decide (password = Some correctPassword)
  then next s
  else (s, Resp 401 (JError "Unauthorized")).

(** *** Settings, teams *)

(** [app.get("/api/settings")]: the rows are folded into a plain object
    with [acc[curr.key] = curr.value]; for the key "__proto__" that
    assignment of a string is a no-op, so the answer has no such key. *)
Definition get_settings (s : server) : server * response :=
  (s, Resp 200 (JSettings (delete "__proto__" (settings (db s))))).

(** [app.post("/api/admin/settings")]: INSERT OR REPLACE, then broadcast. *)
Definition update_setting (key value : string) (s : server) : server * response :=
  (Server (set_settings (db s) (<[key := value]> (settings (db s))))
          (broadcast (SETTINGS_UPDATED key value) (clients s)),
   Resp 200 JSuccess).

(** [app.get("/api/teams")] *)
Definition get_teams (s : server) : server * response :=
  (s, Resp 200 (JTeams (order_by_balance_desc (teams (db s))))).

(** [app.post("/api/teams/join")]: the INSERT throws when the name is taken
    (UNIQUE) and the handler then answers with the existing row.  (The 400
    "Failed to join" needs an INSERT that fails for another reason, which a
    string name never causes.)  Nothing is broadcast. *)
Definition join (s : server) (name : string) : server * response :=
  match List.find (fun t => String.eqb (t_name t) name) (teams (db s)) with
  | None =>
      let '(id, d) := insert_team (db s) name in
      (Server d (clients s), Resp 200 (JTeam id name (num_of_Z 2000)))
  | Some t =>
      (s, Resp 200 (JTeam (t_id t) (t_name t) (t_balance t)))
  end.

(** *** Rounds *)

(** [app.get("/api/rounds/current")] *)
Definition get_current_round (s : server) : server * response :=
  (s, Resp 200 (JRound (current_round (db s)))).

(** [app.post("/api/admin/rounds")] *)
Definition start_round (theme : string) (s : server) : server * response :=
  let d1 := set_rounds (db s) (map force_revealed (rounds (db s))) in
  let '(id, d2) := insert_round d1 theme in
  (Server d2 (broadcast (ROUND_STARTED id theme open) (clients s)),
   Resp 200 (JStarted id theme)).

(** *** Submissions *)

(** [app.post("/api/submissions")] *)
Definition submit (s : server) (teamId roundId : Z) (predictedValue bidAmount : num)
    : server * response :=
  let team := List.find (fun t => t_id t =? teamId) (teams (db s)) in
  if match team with
     | None => true                                 (* !team *)
     | Some t => num_ltb (t_balance t) bidAmount     (* team.balance < bidAmount *)
     end
  then (s, Resp 400 (JError "Insufficient balance"))
  else
    let existing :=
      List.find (fun sub => (s_team_id sub =? teamId) && (s_round_id sub =? roundId))
                (submissions (db s)) in
    match existing with
    | Some _ => (s, Resp 400 (JError "Already submitted for this round"))
    | None =>
        if foreign_keys && negb (foreign_key_ok (db s) teamId roundId)
        then (s, Resp 500 JUncaught)                (* the INSERT throws *)
        else
          (Server (insert_submission (db s) teamId roundId predictedValue bidAmount)
                  (broadcast (SUBMISSION_RECEIVED teamId) (clients s)),
           Resp 200 JSuccess)
    end.

(** [app.get("/api/admin/submissions/:roundId")] *)
Definition get_submissions (roundId : Z) (s : server) : server * response :=
  (s, Resp 200 (JSubmissions (submissions_with_team_name (db s) roundId))).

(** *** Reveal and settlement *)

(** The scoring of one submission in the loop of the reveal route:
    [(errorPercent, finalScore)]. *)
Definition score_submission (actualValue : num) (sub : submission) : num * num :=
  let error := num_abs (num_sub (s_predicted_value sub) actualValue) in
  let errorPercent :=
    if num_eqb actualValue (num_of_Z 0)
    then (if num_eqb (s_predicted_value sub) (num_of_Z 0)
          then num_of_Z 0 else num_of_Z 100)
    else num_mul (num_div error actualValue) (num_of_Z 100) in
  let multiplier :=
    if num_leb errorPercent (num_of_Z 2) then num_of_Z 3
    else if num_leb errorPercent (num_of_Z 5) then num_of_Z 2
    else if num_leb errorPercent (num_of_Z 10) then num_1_5
    else num_of_Z 1 in
  let baseScore :=
    num_mul (s_bid_amount sub) (num_div (num_of_Z 1) (num_add (num_of_Z 1) errorPercent)) in
  let finalScore := num_mul baseScore multiplier in
  (* Rule: If %Error > 25%, lose full bid *)
  let finalScore := if num_ltb (num_of_Z 25) errorPercent then num_of_Z 0 else finalScore in
  (errorPercent, finalScore).

(** One iteration of [for (const sub of submissions)]: the two UPDATEs. *)
Definition settle (actualValue : num) (d : database) (sub : submission) : database :=
  let '(errorPercent, finalScore) := score_submission actualValue sub in
  let d := set_submissions d
             (map (update_submission finalScore errorPercent (s_id sub)) (submissions d)) in
  set_teams d (map (update_balance (s_bid_amount sub) finalScore (s_team_id sub)) (teams d)).

(** [app.post("/api/admin/rounds/reveal")] *)
Definition reveal (roundId : Z) (actualValue : num) (s : server) : server * response :=
  let d := set_rounds (db s) (map (update_round actualValue roundId) (rounds (db s))) in
  let subs := List.filter (fun sub => s_round_id sub =? roundId) (submissions d) in
  let d := foldl (settle actualValue) d subs in
  (Server d (broadcast (ROUND_REVEALED roundId actualValue) (clients s)),
   Resp 200 JSuccess).

(** *** Reset *)

(** [app.post("/api/admin/reset")]: the three DELETEs and the reset of the
    AUTOINCREMENT counters.  (The [catch] answering 500 is for a failure of
    the store itself, which the tables here do not have.) *)
Definition reset (s : server) : server * response :=
  (Server {| teams := []; rounds := []; settings := settings (db s);
             submissions := []; seq_teams := 0; seq_rounds := 0;
             seq_submissions := 0 |}
          (broadcast GAME_RESET (clients s)),
   Resp 200 JSuccess).

(** *** The routes *)

Inductive request :=
| POST_admin_login (password : option string)
| GET_settings
| POST_admin_settings (auth : option string) (key value : string)
| GET_teams
| POST_teams_join (name : string)
| GET_rounds_current
| POST_admin_rounds (auth : option string) (theme : string)
| POST_submissions (teamId roundId : Z) (predictedValue bidAmount : num)
| POST_admin_rounds_reveal (auth : option string) (roundId : Z) (actualValue : num)
| GET_admin_submissions (auth : option string) (roundId : Z)
| POST_admin_reset (auth : option string).

Definition handle (s : server) (req : request) : server * response :=
  match req with
  | POST_admin_login password => login s password
  | GET_settings => get_settings s
  | POST_admin_settings auth key value => adminAuth auth (update_setting key value) s
  | GET_teams => get_teams s
  | POST_teams_join name => join s name
  | GET_rounds_current => get_current_round s
  | POST_admin_rounds auth theme => adminAuth auth (start_round theme) s
  | POST_submissions teamId roundId predictedValue bidAmount =>
      submit s teamId roundId predictedValue bidAmount
  | POST_admin_rounds_reveal auth roundId actualValue =>
      adminAuth auth (reveal roundId actualValue) s
  | GET_admin_submissions auth roundId => adminAuth auth (get_submissions roundId) s
  | POST_admin_reset auth => adminAuth auth reset s
  end.

(** What the event loop delivers: a request or a socket event. *)
Inductive input :=
| Http (req : request)
| WsConnection
| WsClosing (i : nat)
| WsClose (i : nat).

Definition step (s : server) (i : input) : server :=
  match i with
  | Http req => fst (handle s req)
  | WsConnection => ws_connection s
  | WsClosing i => ws_closing s i
  | WsClose i => ws_close s i
  end.

Definition run (s : server) (inputs : list input) : server := foldl step s inputs.

(** The process on a fresh database file: the CREATE TABLEs and the default
    title. *)
Definition init_db : database :=
  {| teams := []; rounds := []; settings := {["game_title" := "DATA PARADOX"]};
     submissions := []; seq_teams := 0; seq_rounds := 0; seq_submissions := 0 |}.

Definition init : server := Server init_db [].

End Server.

(** ** Notions used to state the properties *)

Section Notions.
Context {num : Type} `{JsNumber num}.

Local Abbreviation team := (team num).
Local Abbreviation round := (round num).
Local Abbreviation submission := (submission num).
Local Abbreviation database := (database num).
Local Abbreviation server := (server num).

(** A number that a REAL column holds as it is: anything but NaN ([x === x]
    fails for NaN alone), which SQLite turns into NULL. *)
Definition storable (x : num) : Prop := num_eqb x x = true.

(** The PRIMARY KEY constraints of the three AUTOINCREMENT tables. *)
Definition primary_keys (d : database) : Prop :=
  NoDup (map t_id (teams d)) /\ NoDup (map r_id (rounds d))
  /\ NoDup (map s_id (submissions d)).

(** The FOREIGN KEY constraints of [submissions]. *)
Definition references_hold (d : database) : Prop :=
  forall sub, sub ∈ submissions d ->
    s_team_id sub ∈ map t_id (teams d) /\ s_round_id sub ∈ map r_id (rounds d).

(** Invariant I1: at most one submission per (team, round). *)
Definition one_submission_per_team_and_round (d : database) : Prop :=
  NoDup (map (fun sub => (s_team_id sub, s_round_id sub)) (submissions d)).

(** The constraints of the schema together with I1; the foreign keys only
    where the driver enforces them. *)
Definition consistent (foreign_keys : bool) (d : database) : Prop :=
  primary_keys d /\ one_submission_per_team_and_round d
  /\ (foreign_keys = true -> references_hold d).

(** The same server with the status column of round [roundId] set to [st]. *)
Definition set_status (roundId : Z) (st : round_status) (r : round) : round :=
  if r_id r =? roundId
  then {| r_id := r_id r; r_theme := r_theme r;
          r_actual_value := r_actual_value r; r_status := st |}
  else r.

Definition with_round_status (roundId : Z) (st : round_status) (s : server) : server :=
  Server (set_rounds (db s) (map (set_status roundId st) (rounds (db s)))) (clients s).

(** The submissions of a round, as the reveal route selects them. *)
Definition submissions_of (roundId : Z) (d : database) : list submission :=
  List.filter (fun sub => s_round_id sub =? roundId) (submissions d).

(** Whether the team exists and its balance is not below the bid: the
    negation of the first test of the submit route. *)
Definition can_afford (d : database) (teamId : Z) (bidAmount : num) : bool :=
  match List.find (fun t => t_id t =? teamId) (teams d) with
  | None => false
  | Some t => negb (num_ltb (t_balance t) bidAmount)
  end.

(** Whether the team already has a submission for the round. *)
Definition has_submitted (d : database) (teamId roundId : Z) : bool :=
  existsb (fun sub => (s_team_id sub =? teamId) && (s_round_id sub =? roundId))
          (submissions d).

(** A request that is neither a join, nor a reveal, nor a reset. *)
Definition plain_route (req : request (num := num)) : bool :=
  match req with
  | POST_teams_join _ | POST_admin_rounds_reveal _ _ _ | POST_admin_reset _ => false
  | _ => true
  end.

(** The percent error as the specification words it:
    [a == 0 ? (p == 0 ? 0 : 100) : (|p - a| / |a|) * 100]. *)
Definition spec_errorPercent (p a : num) : num :=
  if num_eqb a (num_of_Z 0)
  then (if num_eqb p (num_of_Z 0) then num_of_Z 0 else num_of_Z 100)
  else num_mul (num_div (num_abs (num_sub p a)) (num_abs a)) (num_of_Z 100).

(** A submission with the result of its scoring stored. *)
Definition settled (actualValue : num) (sub : submission) : submission :=
  {| s_id := s_id sub; s_team_id := s_team_id sub; s_round_id := s_round_id sub;
     s_predicted_value := s_predicted_value sub; s_bid_amount := s_bid_amount sub;
     s_score := snd (score_submission actualValue sub);
     s_error_percent := Some (fst (score_submission actualValue sub)) |}.

(** The scoring as the specification words it. *)
Definition spec_score (p a b : num) : num * num :=
  let errorPercent := spec_errorPercent p a in
  let multiplier :=
    if num_leb errorPercent (num_of_Z 2) then num_of_Z 3
    else if num_leb errorPercent (num_of_Z 5) then num_of_Z 2
    else if num_leb errorPercent (num_of_Z 10) then num_1_5
    else num_of_Z 1 in
  let baseScore := num_mul b (num_div (num_of_Z 1) (num_add (num_of_Z 1) errorPercent)) in
  let finalScore := num_mul baseScore multiplier in
  let finalScore := if num_ltb (num_of_Z 25) errorPercent then num_of_Z 0 else finalScore in
  (errorPercent, finalScore).

End Notions.

(** Sums over exact rationals. *)
Definition sum_Qc (l : list Qc) : Qc := foldr Qcplus (Q2Qc 0) l.

Definition total_balance (d : database Qc) : Qc := sum_Qc (map t_balance (teams d)).

(** ** Scenarios *)

(** The operator's header with the default password. *)
Definition operator : option string := Some "admin123"%string.

(** A team joins, a round is started, the team predicts 100 and bids 50. *)
Definition one_bid : list (input (num := float)) :=
  [ Http (POST_teams_join "ada"); Http (POST_admin_rounds operator "rainfall");
    Http (POST_submissions 1 1 100%float 50%float) ].

(** A team joins, a round is started and revealed at 100 with no bid. *)
Definition revealed_empty : list (input (num := float)) :=
  [ Http (POST_teams_join "ada"); Http (POST_admin_rounds operator "rainfall");
    Http (POST_admin_rounds_reveal operator 1 100%float) ].

(** The row of a prediction of 100 with a bid of 50, not yet settled. *)
Definition bid_50_on_100 : submission float :=
  {| s_id := 1; s_team_id := 1; s_round_id := 1; s_predicted_value := 100%float;
     s_bid_amount := 50%float; s_score := 0%float; s_error_percent := None |}.

(** The same on exact rationals, with a second team bidding 80 on 120. *)
Definition two_bids : list (input (num := Qc)) :=
  [ Http (POST_teams_join "ada"); Http (POST_teams_join "bob");
    Http (POST_admin_rounds operator "rainfall");
    Http (POST_submissions 1 1 (Q2Qc 100) (Q2Qc 50));
    Http (POST_submissions 2 1 (Q2Qc 120) (Q2Qc 80)) ].

(** ** Properties that hold for every number type *)

Section Facts.
Context {num : Type} `{JsNumber num}.
Variable foreign_keys : bool.
Variable ADMIN_PASSWORD : option string.

Local Abbreviation team := (team num).
Local Abbreviation round := (round num).
Local Abbreviation submission := (submission num).
Local Abbreviation database := (database num).
Local Abbreviation server := (server num).
Local Abbreviation pass := (Some (correctPassword ADMIN_PASSWORD)).

(** *** The middleware *)

Lemma adminAuth_pass (next : server -> server * response num) (s : server) :
  adminAuth ADMIN_PASSWORD pass next s = next s.
Proof. unfold adminAuth. case_decide; congruence. Qed.

Lemma adminAuth_db (auth : option string) (next : server -> server * response num)
    (s : server) :
  fst (adminAuth ADMIN_PASSWORD auth next s) = s
  \/ adminAuth ADMIN_PASSWORD auth next s = next s.
Proof. unfold adminAuth. case_decide; auto. Qed.

(** *** What a settlement step leaves alone *)

Lemma settle_rounds a (d : database) sub : rounds (settle a d sub) = rounds d.
Proof. unfold settle. destruct (score_submission a sub). reflexivity. Qed.

Lemma settle_settings a (d : database) sub : settings (settle a d sub) = settings d.
Proof. unfold settle. destruct (score_submission a sub). reflexivity. Qed.

Lemma settle_seqs a (d : database) sub :
  seq_teams (settle a d sub) = seq_teams d
  /\ seq_rounds (settle a d sub) = seq_rounds d
  /\ seq_submissions (settle a d sub) = seq_submissions d.
Proof. unfold settle. destruct (score_submission a sub). auto. Qed.

Lemma settle_teams a (d : database) sub :
  teams (settle a d sub) =
  map (update_balance (s_bid_amount sub) (snd (score_submission a sub)) (s_team_id sub))
      (teams d).
Proof. unfold settle. destruct (score_submission a sub). reflexivity. Qed.

Lemma settle_submissions a (d : database) sub :
  submissions (settle a d sub) =
  map (update_submission (snd (score_submission a sub)) (fst (score_submission a sub))
                         (s_id sub))
      (submissions d).
Proof. unfold settle. destruct (score_submission a sub). reflexivity. Qed.

Lemma update_balance_id b f i (t : team) : t_id (update_balance b f i t) = t_id t.
Proof. unfold update_balance. destruct (t_id t =? i); reflexivity. Qed.

Lemma update_submission_keys f e i (sub : submission) :
  s_id (update_submission f e i sub) = s_id sub
  /\ s_team_id (update_submission f e i sub) = s_team_id sub
  /\ s_round_id (update_submission f e i sub) = s_round_id sub.
Proof. unfold update_submission. destruct (s_id sub =? i); auto. Qed.

Lemma settle_team_ids a (d : database) sub :
  map t_id (teams (settle a d sub)) = map t_id (teams d).
Proof.
  rewrite settle_teams, map_map. apply map_ext. intros t. apply update_balance_id.
Qed.

Lemma settle_submission_keys a (d : database) sub :
  map s_id (submissions (settle a d sub)) = map s_id (submissions d)
  /\ map (fun x => (s_team_id x, s_round_id x)) (submissions (settle a d sub))
     = map (fun x => (s_team_id x, s_round_id x)) (submissions d).
Proof.
  rewrite settle_submissions, !map_map. split; apply map_ext; intros x;
    destruct (update_submission_keys (snd (score_submission a sub))
                (fst (score_submission a sub)) (s_id sub) x) as (E1 & E2 & E3);
    congruence.
Qed.

(** The loop of the reveal route, seen table by table. *)
Lemma settle_all_frame a (subs : list submission) : forall d : database,
  rounds (foldl (settle a) d subs) = rounds d
  /\ settings (foldl (settle a) d subs) = settings d
  /\ seq_teams (foldl (settle a) d subs) = seq_teams d
  /\ seq_rounds (foldl (settle a) d subs) = seq_rounds d
  /\ seq_submissions (foldl (settle a) d subs) = seq_submissions d
  /\ map t_id (teams (foldl (settle a) d subs)) = map t_id (teams d)
  /\ map s_id (submissions (foldl (settle a) d subs)) = map s_id (submissions d)
  /\ map (fun x => (s_team_id x, s_round_id x)) (submissions (foldl (settle a) d subs))
     = map (fun x => (s_team_id x, s_round_id x)) (submissions d).
Proof.
  induction subs as [|sub subs IH]; intros d; simpl.
  - repeat split.
  - destruct (IH (settle a d sub)) as (E1 & E2 & E3 & E4 & E5 & E6 & E7 & E8).
    destruct (settle_seqs a d sub) as (S1 & S2 & S3).
    destruct (settle_submission_keys a d sub) as (K1 & K2).
    rewrite E1, E2, E3, E4, E5, E6, E7, E8.
    rewrite settle_rounds, settle_settings, settle_team_ids.
    repeat split; assumption.
Qed.

(** The loop only depends on the teams and submissions it starts from. *)
Lemma settle_all_rounds_irrelevant a (subs : list submission) :
  forall (d : database) (rs : list round),
    foldl (settle a) (set_rounds d rs) subs = set_rounds (foldl (settle a) d subs) rs.
Proof.
  induction subs as [|sub subs IH]; intros d rs; simpl; [reflexivity|].
  rewrite <- IH. f_equal.
  all: unfold settle; destruct (score_submission a sub); reflexivity.
Qed.

Lemma set_rounds_set_rounds (d : database) (rs rs' : list round) :
  set_rounds (set_rounds d rs) rs' = set_rounds d rs'.
Proof. reflexivity. Qed.

Lemma update_round_set_status a roundId st (r : round) :
  update_round a roundId (set_status roundId st r) = update_round a roundId r.
Proof.
  unfold update_round, set_status.
  destruct (r_id r =? roundId) eqn:E; simpl; rewrite E; reflexivity.
Qed.

(** The reveal route has no guard on the status of the round.  Called by the operator on a round whatever status it has (in
    particular one already revealed), it answers 200 [{success: true}] and
    ends in exactly the state it would reach from the same database with the
    round still open: the settlement is applied once more. *)
Theorem reveal_ignores_round_status (roundId : Z) (st : round_status) (a : num)
    (s : server) :
  handle foreign_keys ADMIN_PASSWORD (with_round_status roundId st s)
         (POST_admin_rounds_reveal pass roundId a)
  = handle foreign_keys ADMIN_PASSWORD s (POST_admin_rounds_reveal pass roundId a)
  /\ snd (handle foreign_keys ADMIN_PASSWORD s (POST_admin_rounds_reveal pass roundId a))
     = Resp 200 JSuccess.
Proof.
  simpl. rewrite !adminAuth_pass. split; [|reflexivity].
  unfold reveal, with_round_status. simpl.
  rewrite map_map.
  rewrite (map_ext _ (update_round a roundId) (update_round_set_status a roundId st)).
  reflexivity.
Qed.

(** *** Row ids *)

Lemma max_rowid_ge (ids : list Z) (x : Z) : x ∈ ids -> x <= max_rowid ids.
Proof.
  induction ids as [|y ids IH]; intros Hx.
  - inversion Hx.
  - simpl. apply elem_of_cons in Hx as [->|Hx]; [lia|]. specialize (IH Hx). lia.
Qed.

Lemma next_rowid_fresh (seq : Z) (ids : list Z) (x : Z) :
  x ∈ ids -> x < next_rowid seq ids.
Proof. intros Hx. apply max_rowid_ge in Hx. unfold next_rowid. lia. Qed.

Lemma next_rowid_not_in (seq : Z) (ids : list Z) : next_rowid seq ids ∉ ids.
Proof. intros Hin. apply (next_rowid_fresh seq) in Hin. lia. Qed.

(** *** Starting a round *)

Lemma force_revealed_eq (r : round) :
  force_revealed r =
  {| r_id := r_id r; r_theme := r_theme r; r_actual_value := r_actual_value r;
     r_status := revealed |}.
Proof.
  unfold force_revealed. case_decide as E; [reflexivity|].
  destruct r as [i t v st]; simpl in *.
  destruct (decide (st = revealed)) as [->|Hne]; [reflexivity|]. contradiction.
Qed.

Lemma force_revealed_id (r : round) : r_id (force_revealed r) = r_id r.
Proof. rewrite force_revealed_eq. reflexivity. Qed.

Lemma latest_round_cases (rs : list round) : forall acc : option round,
  let best := fun (b : option round) (r : round) =>
                match b with
                | None => Some r
                | Some b => if r_id b <? r_id r then Some r else Some b
                end in
  foldl best acc rs = acc \/ exists r, r ∈ rs /\ foldl best acc rs = Some r.
Proof.
  induction rs as [|r rs IH]; intros acc best; simpl; [auto|].
  destruct (IH (best acc r)) as [E|(r' & Hin & E)].
  - fold best in E. rewrite E. unfold best.
    destruct acc as [b|]; [destruct (r_id b <? r_id r)|].
    + right. exists r. split; [left|reflexivity].
    + left. reflexivity.
    + right. exists r. split; [left|reflexivity].
  - right. exists r'. split; [right; assumption|exact E].
Qed.

Lemma current_round_last (d : database) (rs : list round) (r : round) :
  rounds d = rs ++ [r] -> (forall r', r' ∈ rs -> r_id r' < r_id r) ->
  current_round d = Some r.
Proof.
  intros Hrs Hlt. unfold current_round. rewrite Hrs, foldl_app. simpl.
  destruct (latest_round_cases rs None) as [E|(b & Hin & E)]; simpl in E; rewrite E.
  - reflexivity.
  - apply Hlt in Hin. apply Z.ltb_lt in Hin. rewrite Hin. reflexivity.
Qed.

(** C7: started by the operator, a round with the given theme is created
    with a fresh id, status open and no actual value; every round that
    existed keeps its id, theme and actual value and now has status revealed
    (so each round that was not revealed has been forced to revealed);
    submissions and teams (balances included) are untouched; and the new
    round is the current round, its id being above all others. *)
Theorem start_round_forces_revealed (theme : string) (s : server) :
  exists id : Z,
    let new_round := {| r_id := id; r_theme := theme; r_actual_value := None;
                        r_status := open |} in
    let result := handle foreign_keys ADMIN_PASSWORD s (POST_admin_rounds pass theme) in
    snd result = Resp 200 (JStarted id theme)
    /\ rounds (db (fst result)) =
       map (fun r => {| r_id := r_id r; r_theme := r_theme r;
                        r_actual_value := r_actual_value r; r_status := revealed |})
           (rounds (db s)) ++ [new_round]
    /\ submissions (db (fst result)) = submissions (db s)
    /\ teams (db (fst result)) = teams (db s)
    /\ (forall r, r ∈ rounds (db s) -> r_id r < id)
    /\ current_round (db (fst result)) = Some new_round.
Proof.
  exists (next_rowid (seq_rounds (db s)) (map r_id (map force_revealed (rounds (db s))))).
  simpl. rewrite adminAuth_pass. unfold start_round, insert_round. simpl.
  assert (Hfresh : forall r, r ∈ rounds (db s) ->
            r_id r < next_rowid (seq_rounds (db s))
                                (map r_id (map force_revealed (rounds (db s))))).
  { intros r Hr. apply next_rowid_fresh. rewrite map_map.
    apply list_elem_of_fmap. exists r. split; [|assumption].
    symmetry. apply force_revealed_id. }
  assert (Hmap : map force_revealed (rounds (db s)) =
            map (fun r => {| r_id := r_id r; r_theme := r_theme r;
                             r_actual_value := r_actual_value r; r_status := revealed |})
                (rounds (db s))).
  { apply map_ext. intros r. apply force_revealed_eq. }
  repeat split; try assumption.
  - rewrite Hmap. reflexivity.
  - eapply current_round_last; [reflexivity|]. simpl.
    intros r' Hr'. apply list_elem_of_fmap in Hr' as (r & -> & Hr).
    rewrite force_revealed_id. apply Hfresh. assumption.
Qed.

(** *** Reset *)

(** C9: a reset by the operator answers 200 [{success: true}], leaves no
    team, no round and no submission, and leaves the settings table exactly
    as it was. *)
Theorem reset_keeps_only_settings (s : server) :
  let result := handle foreign_keys ADMIN_PASSWORD s (POST_admin_reset pass) in
  snd result = Resp 200 JSuccess
  /\ teams (db (fst result)) = []
  /\ rounds (db (fst result)) = []
  /\ submissions (db (fst result)) = []
  /\ settings (db (fst result)) = settings (db s)
  /\ forall key : string, settings (db (fst result)) !! key = settings (db s) !! key.
Proof. simpl. rewrite adminAuth_pass. unfold reset. simpl. repeat split. Qed.

(** *** Submitting *)

Lemma has_submitted_find (d : database) (t r : Z) :
  has_submitted d t r =
  match List.find (fun sub => (s_team_id sub =? t) && (s_round_id sub =? r))
                  (submissions d) with
  | Some _ => true
  | None => false
  end.
Proof.
  unfold has_submitted. induction (submissions d) as [|x l IH]; simpl; [reflexivity|].
  destruct ((s_team_id x =? t) && (s_round_id x =? r)); [reflexivity|exact IH].
Qed.

(** The submit route as a chain of its three exits and the insertion. *)
Lemma submit_eq (s : server) (t r : Z) (p b : num) :
  submit foreign_keys s t r p b =
  if negb (can_afford (db s) t b)
  then (s, Resp 400 (JError "Insufficient balance"))
  else if has_submitted (db s) t r
  then (s, Resp 400 (JError "Already submitted for this round"))
  else if foreign_keys && negb (foreign_key_ok (db s) t r)
  then (s, Resp 500 JUncaught)
  else (Server (insert_submission (db s) t r p b)
               (broadcast (SUBMISSION_RECEIVED t) (clients s)),
        Resp 200 JSuccess).
Proof.
  unfold submit, can_afford. rewrite has_submitted_find.
  destruct (List.find (fun t0 => t_id t0 =? t) (teams (db s))) as [tm|]; simpl;
    [destruct (num_ltb (t_balance tm) b); simpl|]; try reflexivity.
  destruct (List.find _ (submissions (db s))); reflexivity.
Qed.

Lemma has_submitted_false (d : database) (t r : Z) :
  has_submitted d t r = false ->
  (t, r) ∉ map (fun sub => (s_team_id sub, s_round_id sub)) (submissions d).
Proof.
  unfold has_submitted. intros Hex Hin.
  apply list_elem_of_fmap in Hin as (sub & E & Hsub). inversion E; subst.
  assert (existsb (fun x => (s_team_id x =? s_team_id sub) && (s_round_id x =? s_round_id sub))
                  (submissions d) = true) as Ht.
  { apply existsb_exists. exists sub. split; [apply list_elem_of_In; assumption|].
    rewrite !Z.eqb_refl. reflexivity. }
  congruence.
Qed.

Lemma existsb_id_elem {A : Type} (key : A -> Z) (l : list A) (i : Z) :
  existsb (fun x => key x =? i) l = true <-> i ∈ map key l.
Proof.
  rewrite existsb_exists. split.
  - intros (x & Hx & E). apply Z.eqb_eq in E. subst i.
    apply list_elem_of_fmap. exists x. split; [reflexivity|apply list_elem_of_In; assumption].
  - intros Hin. apply list_elem_of_fmap in Hin as (x & -> & Hx).
    exists x. split; [apply list_elem_of_In; assumption|apply Z.eqb_refl].
Qed.


(** *** The constraints hold in every state the server reaches *)

Lemma NoDup_snoc_fresh {A : Type} (l : list A) (x : A) :
  NoDup l -> x ∉ l -> NoDup (l ++ [x]).
Proof.
  intros Hl Hx. apply NoDup_app. split; [assumption|]. split.
  - intros y Hy Hy'. apply list_elem_of_singleton in Hy'. subst y. contradiction.
  - apply NoDup_singleton.
Qed.

Lemma consistent_settings (d : database) (m : gmap string string) :
  consistent foreign_keys d -> consistent foreign_keys (set_settings d m).
Proof. intros H0. exact H0. Qed.

Lemma consistent_insert_team (d : database) (name : string) :
  consistent foreign_keys d -> consistent foreign_keys (snd (insert_team d name)).
Proof.
  intros ((Kt & Kr & Ks) & Hone & Href). unfold consistent, primary_keys. simpl.
  split; [split; [|split; assumption]|split; [assumption|]].
  - rewrite map_app. simpl. apply NoDup_snoc_fresh; [assumption|apply next_rowid_not_in].
  - intros Hon sub Hsub. simpl. rewrite map_app.
    destruct (Href Hon sub Hsub) as [Ht Hr]. split; [|assumption].
    apply elem_of_app. left. assumption.
Qed.

Lemma map_force_revealed_ids (rs : list round) :
  map r_id (map force_revealed rs) = map r_id rs.
Proof. rewrite map_map. apply map_ext. intros r. apply force_revealed_id. Qed.

Lemma consistent_start_round (d : database) (theme : string) :
  consistent foreign_keys d ->
  consistent foreign_keys
    (snd (insert_round (set_rounds d (map force_revealed (rounds d))) theme)).
Proof.
  intros ((Kt & Kr & Ks) & Hone & Href). unfold consistent, primary_keys. simpl.
  rewrite map_app, map_force_revealed_ids. simpl.
  split; [split; [assumption|split; [|assumption]]|split; [assumption|]].
  - apply NoDup_snoc_fresh; [assumption|]. apply next_rowid_not_in.
  - intros Hon sub Hsub. simpl. rewrite map_app, map_force_revealed_ids.
    destruct (Href Hon sub Hsub) as [Ht Hr]. split; [assumption|].
    apply elem_of_app. left. assumption.
Qed.

Lemma consistent_insert_submission (d : database) (t r : Z) (p b : num) :
  consistent foreign_keys d ->
  has_submitted d t r = false ->
  foreign_keys && negb (foreign_key_ok d t r) = false ->
  consistent foreign_keys (insert_submission d t r p b).
Proof.
  intros ((Kt & Kr & Ks) & Hone & Href) Hnew Hfk.
  unfold consistent, primary_keys, one_submission_per_team_and_round. simpl.
  rewrite !map_app. simpl.
  split; [split; [assumption|split; [assumption|]]|split].
  - apply NoDup_snoc_fresh; [assumption|apply next_rowid_not_in].
  - apply NoDup_snoc_fresh; [assumption|apply has_submitted_false; assumption].
  - intros Hon sub Hsub. rewrite Hon in Hfk. simpl in Hfk.
    apply negb_false_iff, andb_true_iff in Hfk as [Ft Fr].
    apply existsb_id_elem in Ft. apply existsb_id_elem in Fr.
    apply elem_of_app in Hsub as [Hsub|Hsub].
    + apply (Href Hon sub Hsub).
    + apply list_elem_of_singleton in Hsub. subst sub. simpl. split; assumption.
Qed.

Lemma update_round_id a roundId (r : round) : r_id (update_round a roundId r) = r_id r.
Proof. unfold update_round. destruct (r_id r =? roundId); reflexivity. Qed.

Lemma references_hold_keys (d d' : database) :
  map t_id (teams d') = map t_id (teams d) ->
  map r_id (rounds d') = map r_id (rounds d) ->
  map (fun x => (s_team_id x, s_round_id x)) (submissions d')
  = map (fun x => (s_team_id x, s_round_id x)) (submissions d) ->
  references_hold d -> references_hold d'.
Proof.
  intros Et Er Es Href sub Hsub. rewrite Et, Er.
  assert ((s_team_id sub, s_round_id sub)
          ∈ map (fun x => (s_team_id x, s_round_id x)) (submissions d)) as Hin.
  { rewrite <- Es. apply list_elem_of_fmap. exists sub. split; [reflexivity|assumption]. }
  apply list_elem_of_fmap in Hin as (sub0 & E & Hsub0). inversion E as [[E1 E2]].
  rewrite E1, E2. apply Href. assumption.
Qed.

Lemma consistent_reveal (d : database) (roundId : Z) (a : num) (subs : list submission) :
  consistent foreign_keys d ->
  consistent foreign_keys
    (foldl (settle a) (set_rounds d (map (update_round a roundId) (rounds d))) subs).
Proof.
  intros ((Kt & Kr & Ks) & Hone & Href).
  destruct (settle_all_frame a subs (set_rounds d (map (update_round a roundId) (rounds d))))
    as (E1 & _ & _ & _ & _ & E6 & E7 & E8).
  simpl in *.
  assert (Er : map r_id (map (update_round a roundId) (rounds d)) = map r_id (rounds d)).
  { rewrite map_map. apply map_ext. intros r. apply update_round_id. }
  unfold consistent, primary_keys, one_submission_per_team_and_round.
  rewrite E1, E6, E7, E8, Er.
  split; [split; [assumption|split; assumption]|split; [assumption|]].
  intros Hon. eapply references_hold_keys; [exact E6| |exact E8|exact (Href Hon)].
  rewrite E1. exact Er.
Qed.

Lemma consistent_init : consistent foreign_keys (@init_db num).
Proof.
  unfold consistent, primary_keys, one_submission_per_team_and_round. simpl.
  split; [repeat split; apply NoDup_nil_2|split; [apply NoDup_nil_2|]].
  intros _ sub Hsub. inversion Hsub.
Qed.

Lemma handle_consistent (s : server) (req : request) :
  consistent foreign_keys (db s) ->
  consistent foreign_keys (db (fst (handle foreign_keys ADMIN_PASSWORD s req))).
Proof.
  intros Hc. destruct req; simpl; try assumption.
  - unfold login. case_decide; assumption.
  - unfold adminAuth. case_decide; [|assumption]. apply consistent_settings. assumption.
  - unfold join. destruct (List.find _ (teams (db s))); [assumption|].
    apply (consistent_insert_team (db s) name Hc).
  - unfold adminAuth. case_decide; [|assumption].
    apply (consistent_start_round (db s) theme Hc).
  - rewrite submit_eq.
    destruct (negb (can_afford (db s) teamId bidAmount)); [assumption|].
    destruct (has_submitted (db s) teamId roundId) eqn:Hs; [assumption|].
    destruct (foreign_keys && negb (foreign_key_ok (db s) teamId roundId)) eqn:Hfk;
      [assumption|].
    simpl. apply consistent_insert_submission; assumption.
  - unfold adminAuth. case_decide; [|assumption]. simpl.
    apply consistent_reveal. assumption.
  - unfold adminAuth. case_decide; assumption.
  - unfold adminAuth. case_decide; [|assumption]. simpl.
    unfold consistent, primary_keys, one_submission_per_team_and_round. simpl.
    split; [repeat split; apply NoDup_nil_2|split; [apply NoDup_nil_2|]].
    intros _ sub Hsub. inversion Hsub.
Qed.

Lemma step_consistent (s : server) (i : input) :
  consistent foreign_keys (db s) ->
  consistent foreign_keys (db (step foreign_keys ADMIN_PASSWORD s i)).
Proof.
  intros Hc. destruct i; simpl; try assumption. apply handle_consistent. assumption.
Qed.

Lemma run_consistent (inputs : list input) : forall s : server,
  consistent foreign_keys (db s) ->
  consistent foreign_keys (db (run foreign_keys ADMIN_PASSWORD s inputs)).
Proof.
  induction inputs as [|i inputs IH]; intros s Hc; simpl; [assumption|].
  apply IH, step_consistent, Hc.
Qed.

Lemma reachable_consistent (inputs : list input) :
  consistent foreign_keys (db (run foreign_keys ADMIN_PASSWORD init inputs)).
Proof. apply run_consistent. simpl. apply consistent_init. Qed.

(** *** What the submit route checks *)




(** *** Revealing a round nobody refers to *)

Lemma set_rounds_same (d : database) : set_rounds d (rounds d) = d.
Proof. destruct d; reflexivity. Qed.

Lemma server_eta (s : server) : Server (db s) (clients s) = s.
Proof. destruct s; reflexivity. Qed.

Lemma reveal_unreferenced_round (s : server) (roundId : Z) (a : num) :
  references_hold (db s) -> roundId ∉ map r_id (rounds (db s)) ->
  reveal roundId a s
  = (Server (db s) (broadcast (ROUND_REVEALED roundId a) (clients s)), Resp 200 JSuccess).
Proof.
  intros Href Hno. unfold reveal.
  assert (map (update_round a roundId) (rounds (db s)) = rounds (db s)) as ->.
  { rewrite <- (map_id (rounds (db s))) at 2. apply map_ext_in. intros r Hr.
    unfold update_round. destruct (r_id r =? roundId) eqn:E; [|reflexivity].
    apply Z.eqb_eq in E. exfalso. apply Hno. rewrite <- E.
    apply list_elem_of_fmap. exists r. split; [reflexivity|apply list_elem_of_In; assumption]. }
  rewrite set_rounds_same.
  assert (List.filter (fun sub => s_round_id sub =? roundId) (submissions (db s)) = []) as ->.
  { assert (forall sub, sub ∈ submissions (db s) -> s_round_id sub <> roundId) as Hne.
    { intros sub Hsub E. apply Hno. rewrite <- E. apply (Href sub Hsub). }
    induction (submissions (db s)) as [|sub l IH]; [reflexivity|]. simpl.
    destruct (s_round_id sub =? roundId) eqn:E.
    - apply Z.eqb_eq in E. exfalso. apply (Hne sub); [left|assumption].
    - apply IH. intros x Hx. apply Hne. right. assumption. }
  reflexivity.
Qed.

End Facts.

(** C10: on a server whose driver enforces the foreign keys, in any state
    reached from a fresh database, a reveal by the operator for an id that
    is no round's id answers 200 [{success: true}] (never a not-found error),
    leaves the whole database as it is (teams and balances, rounds,
    submissions), and broadcasts ROUND_REVEALED with that id and value:
    every client whose socket is OPEN has that one message appended to what
    it had received, and the other clients are as before. *)
Theorem reveal_unknown_round {num : Type} `{JsNumber num} (ADMIN_PASSWORD : option string)
    (inputs : list input) (roundId : Z) (actualValue : num) :
  let s := run true ADMIN_PASSWORD init inputs in
  roundId ∉ map r_id (rounds (db s)) ->
  let result :=
    handle true ADMIN_PASSWORD s
           (POST_admin_rounds_reveal (Some (correctPassword ADMIN_PASSWORD))
                                     roundId actualValue) in
  snd result = Resp 200 JSuccess
  /\ db (fst result) = db s
  /\ clients (fst result)
     = map (fun c => if decide (readyState c = OPEN)
                     then {| readyState := readyState c;
                             received := received c ++ [ROUND_REVEALED roundId actualValue] |}
                     else c)
           (clients s).
Proof.
  intros s Hno. simpl. rewrite adminAuth_pass.
  rewrite reveal_unreferenced_round; [|apply (reachable_consistent true ADMIN_PASSWORD inputs);
                                       reflexivity|assumption].
  simpl. repeat split.
Qed.

(** ** Which inputs touch the teams table *)

Section Frame.
Context {num : Type} `{JsNumber num}.
Variable foreign_keys : bool.
Variable ADMIN_PASSWORD : option string.

(** Apart from a join, a reveal and a reset, no input changes the teams
    table; a join appends at most one team, with balance 2000; a reset
    leaves the table as it is (refused) or empties it. *)
Lemma teams_frame (s : server num) (i : input) :
  let ts' := teams (db (step foreign_keys ADMIN_PASSWORD s i)) in
  match i with
  | Http (POST_admin_rounds_reveal _ _ _) => True
  | Http (POST_teams_join name) =>
      ts' = teams (db s)
      \/ exists id, ts' = teams (db s) ++
                            [{| t_id := id; t_name := name; t_balance := num_of_Z 2000 |}]
  | Http (POST_admin_reset _) => ts' = teams (db s) \/ ts' = []
  | _ => ts' = teams (db s)
  end.
Proof.
  destruct i as [req| | |]; simpl; try reflexivity.
  destruct req; simpl; try reflexivity; try exact I.
  - unfold login. case_decide; reflexivity.
  - unfold adminAuth. case_decide; reflexivity.
  - unfold join. destruct (List.find _ (teams (db s))); [left; reflexivity|].
    right. eexists. reflexivity.
  - unfold adminAuth. case_decide; reflexivity.
  - rewrite submit_eq.
    destruct (negb (can_afford (db s) teamId bidAmount)); [reflexivity|].
    destruct (has_submitted (db s) teamId roundId); [reflexivity|].
    destruct (foreign_keys && negb (foreign_key_ok (db s) teamId roundId)); reflexivity.
  - unfold adminAuth. case_decide; reflexivity.
  - unfold adminAuth. case_decide; [right|left]; reflexivity.
Qed.

End Frame.

(** ** Settlement in exact arithmetic *)

Section Ledger.
Local Open Scope Qc_scope.

Lemma sum_Qc_nil : sum_Qc [] = 0.
Proof. reflexivity. Qed.

Lemma sum_Qc_cons (x : Qc) (l : list Qc) : sum_Qc (x :: l) = x + sum_Qc l.
Proof. reflexivity. Qed.

Lemma update_balance_absent (ts : list (team Qc)) (bid fs : Qc) (tid : Z) :
  tid ∉ map t_id ts -> map (update_balance bid fs tid) ts = ts.
Proof.
  induction ts as [|t ts IH]; intros Hno; simpl; [reflexivity|].
  simpl in Hno. apply not_elem_of_cons in Hno as [Hne Hno].
  rewrite (IH Hno). unfold update_balance.
  destruct (Z.eqb_spec (t_id t) tid) as [E|_]; [congruence|reflexivity].
Qed.

(** One UPDATE of a balance moves the total by [finalScore - bid_amount]. *)
Lemma sum_update_balance (ts : list (team Qc)) (bid fs : Qc) (tid : Z) :
  NoDup (map t_id ts) -> tid ∈ map t_id ts ->
  sum_Qc (map t_balance (map (update_balance bid fs tid) ts))
  = sum_Qc (map t_balance ts) + (fs - bid).
Proof.
  induction ts as [|t ts IH]; intros Hnd Hin; simpl in *.
  - inversion Hin.
  - apply NoDup_cons in Hnd as [Hfresh Hnd].
    unfold update_balance at 1. destruct (Z.eqb_spec (t_id t) tid) as [E|Hne].
    + rewrite update_balance_absent by congruence. simpl. ring.
    + apply elem_of_cons in Hin as [E|Hin]; [congruence|].
      rewrite (IH Hnd Hin). ring.
Qed.

(** The whole loop moves the total by the sum of the deltas. *)
Lemma settle_all_total (a : Qc) (subs : list (submission Qc)) : forall d : database Qc,
  NoDup (map t_id (teams d)) ->
  (forall sub, sub ∈ subs -> s_team_id sub ∈ map t_id (teams d)) ->
  total_balance (foldl (settle a) d subs)
  = total_balance d
    + sum_Qc (map (fun sub => snd (score_submission a sub) - s_bid_amount sub) subs).
Proof.
  induction subs as [|sub subs IH]; intros d Hnd Hin; cbn [foldl map].
  - rewrite sum_Qc_nil. ring.
  - rewrite sum_Qc_cons, IH.
    + unfold total_balance at 1. rewrite settle_teams.
      rewrite sum_update_balance; [|assumption|apply Hin; left].
      unfold total_balance. ring.
    + rewrite settle_team_ids. assumption.
    + intros x Hx. rewrite settle_team_ids. apply Hin. right. assumption.
Qed.

(** The ledger in exact arithmetic (rationals, no rounding): (i) in any
    state reached from a fresh database, when every submission of the round
    belongs to an existing team, a reveal by the operator changes the sum of
    all balances by exactly the sum, over the submissions of the round, of
    [finalScore - bid_amount]; (ii) no input other than a reveal changes a
    balance.  On binary64 each UPDATE of a balance rounds, and the two sides
    of (i) differ in the last digits ([settlement_rounds_on_binary64]). *)
Theorem settlement_moves_total_by_deltas (foreign_keys : bool)
    (ADMIN_PASSWORD : option string) :
  (forall (inputs : list input) (roundId : Z) (actualValue : Qc),
      let s := run foreign_keys ADMIN_PASSWORD init inputs in
      let result :=
        handle foreign_keys ADMIN_PASSWORD s
               (POST_admin_rounds_reveal (Some (correctPassword ADMIN_PASSWORD))
                                         roundId actualValue) in
      (forall sub, sub ∈ submissions_of roundId (db s) ->
                   s_team_id sub ∈ map t_id (teams (db s))) ->
      total_balance (db (fst result)) - total_balance (db s)
      = sum_Qc (map (fun sub => snd (score_submission actualValue sub) - s_bid_amount sub)
                    (submissions_of roundId (db s))))
  /\ (forall (s : server Qc) (i : input),
         let ts' := teams (db (step foreign_keys ADMIN_PASSWORD s i)) in
         match i with
         | Http (POST_admin_rounds_reveal _ _ _) => True
         | Http (POST_teams_join name) =>
             ts' = teams (db s)
             \/ exists id, ts' = teams (db s) ++
                                   [{| t_id := id; t_name := name;
                                       t_balance := num_of_Z 2000 |}]
         | Http (POST_admin_reset _) => ts' = teams (db s) \/ ts' = []
         | _ => ts' = teams (db s)
         end).
Proof.
  split.
  - intros inputs roundId a s result Hteams. subst result. simpl.
    rewrite adminAuth_pass. unfold reveal. simpl.
    destruct (reachable_consistent foreign_keys ADMIN_PASSWORD inputs)
      as ((Kt & _ & _) & _ & _).
    fold s in Kt.
    rewrite settle_all_total; [unfold total_balance, submissions_of; simpl; ring| |];
      simpl; assumption.
  - intros s i. apply (teams_frame foreign_keys ADMIN_PASSWORD s i).
Qed.

End Ledger.

(** ** What a reveal stores *)

Section Stored.
Context {num : Type} `{JsNumber num}.

Local Abbreviation submission := (submission num).

Lemma settle_all_submissions (a : num) (subs : list submission) : forall d : database num,
  submissions (foldl (settle a) d subs)
  = map (fun x => foldl (fun x' y =>
                           update_submission (snd (score_submission a y))
                                             (fst (score_submission a y)) (s_id y) x')
                        x subs)
        (submissions d).
Proof.
  induction subs as [|y subs IH]; intros d; cbn [foldl].
  - symmetry. apply map_id.
  - rewrite IH, settle_submissions, map_map. reflexivity.
Qed.

Lemma store_other (a : num) (y x : submission) :
  s_id x <> s_id y ->
  update_submission (snd (score_submission a y)) (fst (score_submission a y)) (s_id y) x = x.
Proof.
  intros Hne. unfold update_submission.
  destruct (Z.eqb_spec (s_id x) (s_id y)); [contradiction|reflexivity].
Qed.

Lemma store_self (a : num) (x : submission) :
  update_submission (snd (score_submission a x)) (fst (score_submission a x)) (s_id x) x
  = settled a x.
Proof. unfold update_submission, settled. rewrite Z.eqb_refl. reflexivity. Qed.

Lemma store_settled (a : num) (x : submission) :
  update_submission (snd (score_submission a x)) (fst (score_submission a x)) (s_id x)
                    (settled a x)
  = settled a x.
Proof. unfold update_submission, settled. simpl. rewrite Z.eqb_refl. reflexivity. Qed.

(** A row keeps its stored result through the rest of the loop. *)
Lemma settled_stays (a : num) (x : submission) (ys : list submission) :
  (forall y, y ∈ ys -> s_id y = s_id x -> y = x) ->
  foldl (fun x' y => update_submission (snd (score_submission a y))
                                       (fst (score_submission a y)) (s_id y) x')
        (settled a x) ys
  = settled a x.
Proof.
  induction ys as [|y ys IH]; intros Hkey; cbn [foldl]; [reflexivity|].
  destruct (Z.eq_dec (s_id y) (s_id x)) as [E|Hne].
  - rewrite (Hkey y (list_elem_of_here _ _) E), store_settled.
    apply IH. intros y' Hy'. apply Hkey. right. assumption.
  - rewrite store_other by (simpl; congruence).
    apply IH. intros y' Hy'. apply Hkey. right. assumption.
Qed.

Lemma loop_on_row (a : num) (x : submission) (ys : list submission) :
  (forall y, y ∈ ys -> s_id y = s_id x -> y = x) ->
  foldl (fun x' y => update_submission (snd (score_submission a y))
                                       (fst (score_submission a y)) (s_id y) x')
        x ys
  = if existsb (fun y => s_id y =? s_id x) ys then settled a x else x.
Proof.
  induction ys as [|y ys IH]; intros Hkey; cbn [foldl existsb]; [reflexivity|].
  destruct (Z.eqb_spec (s_id y) (s_id x)) as [E|Hne]; cbn [orb].
  - rewrite (Hkey y (list_elem_of_here _ _) E), store_self.
    apply settled_stays. intros y' Hy'. apply Hkey. right. assumption.
  - rewrite store_other by congruence.
    apply IH. intros y' Hy'. apply Hkey. right. assumption.
Qed.

Lemma primary_key_identifies (l : list submission) (x y : submission) :
  NoDup (map s_id l) -> x ∈ l -> y ∈ l -> s_id y = s_id x -> y = x.
Proof.
  induction l as [|z l IH]; intros Hnd Hx Hy E; [inversion Hx|].
  simpl in Hnd. apply NoDup_cons in Hnd as [Hz Hnd].
  apply elem_of_cons in Hx as [->|Hx]; apply elem_of_cons in Hy as [->|Hy].
  - reflexivity.
  - exfalso. apply Hz. rewrite <- E. apply list_elem_of_fmap. eauto.
  - exfalso. apply Hz. rewrite E. apply list_elem_of_fmap. eauto.
  - apply IH; assumption.
Qed.

(** In the model, after a reveal every submission of the round holds the
    score and the error percent that [score_submission] computes for it, and
    every other submission is as before.  (On the database this is so where
    the two values are not NaN.) *)
Lemma reveal_stores_scores (s : server num) (roundId : Z) (a : num) :
  NoDup (map s_id (submissions (db s))) ->
  submissions (db (fst (reveal roundId a s)))
  = map (fun sub => if s_round_id sub =? roundId then settled a sub else sub)
        (submissions (db s)).
Proof.
  intros Hnd. unfold reveal. cbn [fst db]. rewrite settle_all_submissions.
  cbn [submissions set_rounds]. apply map_ext_in. intros x Hx.
  apply list_elem_of_In in Hx.
  rewrite loop_on_row.
  - destruct (s_round_id x =? roundId) eqn:Ex.
    + assert (existsb (fun y => s_id y =? s_id x)
                (List.filter (fun sub => s_round_id sub =? roundId) (submissions (db s)))
              = true) as ->; [|reflexivity].
      apply existsb_exists. exists x. split; [|apply Z.eqb_refl].
      apply filter_In. split; [apply list_elem_of_In; assumption|assumption].
    + assert (existsb (fun y => s_id y =? s_id x)
                (List.filter (fun sub => s_round_id sub =? roundId) (submissions (db s)))
              = false) as ->; [|reflexivity].
      apply not_true_is_false. intros Hex.
      apply existsb_exists in Hex as (y & Hy & E). apply Z.eqb_eq in E.
      apply filter_In in Hy as [Hy Ey]. apply list_elem_of_In in Hy.
      rewrite (primary_key_identifies _ x y Hnd Hx Hy E) in Ey. congruence.
  - intros y Hy E. apply list_elem_of_In, filter_In in Hy as [Hy _].
    apply list_elem_of_In in Hy. exact (primary_key_identifies _ x y Hnd Hx Hy E).
Qed.

(** The rule of the code's comment: above 25 percent the full bid is lost. *)
Lemma lose_full_bid (a : num) (sub : submission) :
  num_ltb (num_of_Z 25) (fst (score_submission a sub)) = true ->
  snd (score_submission a sub) = num_of_Z 0.
Proof. unfold score_submission. simpl. intros ->. reflexivity. Qed.

End Stored.

(** ** Scoring in exact arithmetic *)

Section ExactScoring.
Local Open Scope Qc_scope.

Lemma Qc_abs_of_nonneg (x : Qc) : 0 <= x -> Qc_abs x = x.
Proof.
  intros Hx. unfold Qc_abs.
  destruct (Qle_bool 0 x) eqn:E; [reflexivity|].
  apply Qle_bool_iff in Hx. change (Qle_bool 0 x = true) in Hx. congruence.
Qed.

Lemma Qc_abs_nonneg (x : Qc) : 0 <= Qc_abs x.
Proof.
  unfold Qc_abs. destruct (Qle_bool 0 x) eqn:E.
  - apply Qle_bool_iff in E. exact E.
  - assert (x < 0) as Hlt.
    { apply Qcnot_le_lt. intros Hle. apply Qle_bool_iff in Hle.
      change (Qle_bool 0 x = true) in Hle. congruence. }
    apply Qclt_le_weak in Hlt. apply Qcopp_le_compat in Hlt. exact Hlt.
Qed.

Lemma Qc_mult_nonneg (x y : Qc) : 0 <= x -> 0 <= y -> 0 <= x * y.
Proof.
  intros Hx Hy. replace 0 with (0 * y) by ring. apply Qcmult_le_compat_r; assumption.
Qed.

Lemma Qc_inv_nonneg (x : Qc) : 0 <= x -> 0 <= / x.
Proof.
  intros Hx. unfold Qcle in *.
  change (this (/ x)) with (Qred (/ this x)). change (this 0) with 0%Q in *.
  rewrite Qred_correct. apply Qinv_le_0_compat. exact Hx.
Qed.

Lemma Qc_div_nonneg (x y : Qc) : 0 <= x -> 0 <= y -> 0 <= x / y.
Proof. intros Hx Hy. apply Qc_mult_nonneg; [assumption|apply Qc_inv_nonneg; assumption]. Qed.

Lemma Qc_plus_nonneg (x y : Qc) : 0 <= x -> 0 <= y -> 0 <= x + y.
Proof.
  intros Hx Hy. replace 0 with (0 + 0) by ring. apply Qcplus_le_compat; assumption.
Qed.

Lemma Qc_literal_nonneg (z : Z) : (0 <= z)%Z -> 0 <= num_of_Z z.
Proof.
  intros Hz. unfold Qcle.
  change (this (num_of_Z z)) with (Qred (inject_Z z)). change (this 0) with 0%Q.
  rewrite Qred_correct. unfold Qle. simpl. lia.
Qed.

Lemma Qc_1_5_nonneg : 0 <= num_1_5.
Proof. unfold Qcle. vm_compute. discriminate. Qed.

Lemma error_percent_nonneg (a : Qc) (sub : submission Qc) :
  0 <= a -> 0 <= fst (score_submission a sub).
Proof.
  intros Ha. unfold score_submission. cbn [fst].
  destruct (num_eqb a (num_of_Z 0)).
  - destruct (num_eqb (s_predicted_value sub) (num_of_Z 0));
      apply Qc_literal_nonneg; lia.
  - apply Qc_mult_nonneg; [|apply Qc_literal_nonneg; lia].
    apply Qc_div_nonneg; [apply Qc_abs_nonneg|assumption].
Qed.

(** For a non-negative actual value the scoring of the code is the scoring
    of the specification. *)
Lemma score_submission_meets_spec (a : Qc) (sub : submission Qc) :
  0 <= a ->
  score_submission a sub = spec_score (s_predicted_value sub) a (s_bid_amount sub).
Proof.
  intros Ha. unfold score_submission, spec_score, spec_errorPercent.
  cbn [num_abs Qc_JsNumber]. rewrite (Qc_abs_of_nonneg a Ha). reflexivity.
Qed.

(** For a non-negative actual value and a positive bid the final score is
    not negative. *)
Lemma final_score_nonnegative (a : Qc) (sub : submission Qc) :
  0 <= a -> 0 < s_bid_amount sub -> 0 <= snd (score_submission a sub).
Proof.
  intros Ha Hb. pose proof (error_percent_nonneg a sub Ha) as He.
  apply Qclt_le_weak in Hb.
  unfold score_submission in *. cbn [fst snd] in *.
  set (errorPercent := if num_eqb a (num_of_Z 0) then _ else _) in *.
  destruct (num_ltb (num_of_Z 25) errorPercent); [apply Qc_literal_nonneg; lia|].
  apply Qc_mult_nonneg.
  - apply Qc_mult_nonneg; [assumption|].
    apply Qc_div_nonneg; [apply Qc_literal_nonneg; lia|].
    apply Qc_plus_nonneg; [apply Qc_literal_nonneg; lia|assumption].
  - destruct (num_leb errorPercent (num_of_Z 2)); [apply Qc_literal_nonneg; lia|].
    destruct (num_leb errorPercent (num_of_Z 5)); [apply Qc_literal_nonneg; lia|].
    destruct (num_leb errorPercent (num_of_Z 10));
      [apply Qc_1_5_nonneg|apply Qc_literal_nonneg; lia].
Qed.
End ExactScoring.

(** ** The running server: evaluations on binary64 *)

Section Evaluations.
Local Open Scope float_scope.

(** C1 (the claim fails): after a first reveal at 100 the round is revealed
    and the team holds 2100; the second reveal of the same round is answered
    200 [{success: true}], not an error, and settles again: the team holds
    2200. *)
Lemma second_reveal_settles_again :
  let s1 := run true None init
                (one_bid ++ [Http (POST_admin_rounds_reveal operator 1%Z 100)]) in
  let result := handle true None s1 (POST_admin_rounds_reveal operator 1%Z 100) in
  map r_status (rounds (db s1)) = [revealed]
  /\ map t_balance (teams (db s1)) = [2100]
  /\ snd result = Resp 200 JSuccess
  /\ map t_balance (teams (db (fst result))) = [2200]
  /\ teams (db (fst result)) <> teams (db s1).
Proof.
  repeat split; try (vm_compute; reflexivity).
  intros E.
  apply (f_equal (fun ts => map (fun t => PrimFloat.eqb (t_balance t) 2200) ts)) in E.
  vm_compute in E. discriminate E.
Qed.

(** C2 (the code at a negative actual value): a prediction of 100 with a bid
    of 50 revealed at -100 is stored with error_percent -200 and a negative
    score, where the formula of the specification gives 200 and 0.  The
    quotient is taken by [actualValue], not by its absolute value. *)
Lemma reveal_at_negative_actual_value :
  let s := run true None init
               (one_bid ++ [Http (POST_admin_rounds_reveal operator 1%Z (-100))]) in
  map (fun sub => (s_error_percent sub, s_score sub)) (submissions (db s))
  = [(Some (-200), -0x1.81edfd6d58c38p-1)]      (* about -0.7537688 *)
  /\ spec_score 100 (-100) 50 = (200, 0).
Proof. split; vm_compute; reflexivity. Qed.

(** C3 (the code at a negative actual value): for the finite values p = 100,
    a = -100 and the bid b = 50 > 0 the scoring yields errorPercent -200,
    hence the 3.0 multiplier, and a final score below zero. *)
Lemma final_score_negative :
  PrimFloat.is_finite 100 = true /\ PrimFloat.is_finite (-100) = true
  /\ PrimFloat.is_finite 50 = true /\ PrimFloat.ltb 0 50 = true
  /\ score_submission (-100) bid_50_on_100
     = (-200, -0x1.81edfd6d58c38p-1)             (* about -0.7537688 *)
  /\ PrimFloat.ltb (snd (score_submission (-100) bid_50_on_100)) 0 = true.
Proof. repeat split; vm_compute; reflexivity. Qed.




(** Where the driver does not enforce the foreign keys, a submission for a
    round that does not exist is accepted, and a later reveal of that id
    settles it; with enforcement the INSERT fails (500) and no such row can
    exist, which is what [reveal_unknown_round] relies on. *)
Remark unknown_round_without_foreign_keys :
  let join := [Http (POST_teams_join "ada")] in
  snd (submit true (run true None init join) 1 7 100 50) = Resp 500 JUncaught
  /\ snd (submit false (run false None init join) 1 7 100 50) = Resp 200 JSuccess
  /\ map t_balance
       (teams (db (fst (handle false None
                              (fst (submit false (run false None init join) 1 7 100 50))
                              (POST_admin_rounds_reveal operator 7%Z 100)))))
     = [2100].
Proof. repeat split; vm_compute; reflexivity. Qed.

End Evaluations.

(** ** The theorems at concrete inputs *)

Section Instances.



(** The reveal at 100 of the round of [two_bids]. *)
Lemma settlement_moves_total_by_deltas_at_two_bids :
  let s := run true None init two_bids in
  let result :=
    handle true None s
           (POST_admin_rounds_reveal (Some (correctPassword None)) 1 (Q2Qc 100)) in
  (total_balance (db (fst result)) - total_balance (db s))%Qc
  = sum_Qc (map (fun sub => (snd (score_submission (Q2Qc 100) sub) - s_bid_amount sub)%Qc)
                (submissions_of 1 (db s))).
Proof.
  apply (proj1 (settlement_moves_total_by_deltas true None) two_bids 1 (Q2Qc 100)).
  intros sub Hsub. apply list_elem_of_In in Hsub. apply list_elem_of_In.
  vm_compute in Hsub. destruct Hsub as [<-|[<-|[]]]; vm_compute; auto.
Defined.

(** A reveal of round 7 when only round 1 exists, with one socket connected
    from the start. *)
Lemma reveal_unknown_round_at_one_bid :
  let s := run true None init (WsConnection :: one_bid) in
  let result :=
    handle true None s
           (POST_admin_rounds_reveal (Some (correctPassword None)) 7 100%float) in
  (7 ∉ map r_id (rounds (db s)))
  /\ (snd result = Resp 200 JSuccess
      /\ db (fst result) = db s
      /\ clients (fst result)
         = map (fun c => if decide (readyState c = OPEN)
                         then {| readyState := readyState c;
                                 received := received c ++ [ROUND_REVEALED 7 100%float] |}
                         else c)
               (clients s))
  /\ map received (clients (fst result))
     = [[ROUND_STARTED 1 "rainfall" open; SUBMISSION_RECEIVED 1;
         ROUND_REVEALED 7 100%float]].
Proof.
  intros s result.
  assert (Hno : 7 ∉ map r_id (rounds (db s))).
  { intros Hin. apply list_elem_of_In in Hin. vm_compute in Hin.
    destruct Hin as [E|[]]. discriminate E. }
  split; [exact Hno|]. split.
  - exact (reveal_unknown_round None (WsConnection :: one_bid) 7 100%float Hno).
  - vm_compute. reflexivity.
Defined.

End Instances.

From Stdlib Require Import Sorted.

(** ** Further notions *)

Section MoreNotions.
Context {num : Type} `{JsNumber num}.

(** The [x-admin-password] header of a request to a route behind
    [adminAuth]; [None] for the public routes. *)
Definition admin_header (req : request (num := num)) : option (option string) :=
  match req with
  | POST_admin_settings auth _ _ | POST_admin_rounds auth _
  | POST_admin_rounds_reveal auth _ _ | GET_admin_submissions auth _
  | POST_admin_reset auth => Some auth
  | _ => None
  end.

(** What a run of broadcasts does to the client set: every OPEN client gets
    the messages [evs] appended, in order. *)
Definition deliver (evs : list (event num)) (cs : list (client num)) : list (client num) :=
  map (fun c => if decide (readyState c = OPEN)
                then {| readyState := readyState c; received := received c ++ evs |}
                else c) cs.

(** The columns of a submission that are written once, at insertion. *)
Definition bid_of (sub : submission num) : Z * Z * Z * num * num :=
  (s_id sub, s_team_id sub, s_round_id sub, s_predicted_value sub, s_bid_amount sub).

(** The status column only ever holds open or revealed, and only the last
    row can be open. *)
Definition latest_only_open (rs : list (round num)) : Prop :=
  forall (i : nat) (r : round num), rs !! i = Some r ->
    r_status r = revealed \/ (r_status r = open /\ S i = length rs).

(** Row ids 1, 2, ..., n in table order, with the AUTOINCREMENT counter at n. *)
Definition numbered (ids : list Z) (seq : Z) : Prop :=
  ids = seqZ 1 (Z.of_nat (length ids)) /\ seq = Z.of_nat (length ids).

(** No submission of an open round carries a result. *)
Definition open_unsettled (d : database num) : Prop :=
  forall (sub : submission num) (r : round num),
    sub ∈ submissions d -> r ∈ rounds d -> r_id r = s_round_id sub ->
    r_status r = open -> s_error_percent sub = None /\ s_score sub = num_of_Z 0.

End MoreNotions.

Section Requests.
Context {num : Type} `{JsNumber num}.
Variable foreign_keys : bool.
Variable ADMIN_PASSWORD : option string.

Local Abbreviation server := (server num).
Local Abbreviation pass := (Some (correctPassword ADMIN_PASSWORD)).

(** X1: a request that is not answered 200 has no effect at all: the
    database and the client set (with everything sent to it) are as before. *)
Theorem rejected_request_changes_nothing (s : server) (req : request) :
  status (snd (handle foreign_keys ADMIN_PASSWORD s req)) <> 200 ->
  fst (handle foreign_keys ADMIN_PASSWORD s req) = s.
Proof.
  destruct req; simpl;
    try (unfold adminAuth; case_decide; simpl; [congruence|reflexivity]);
    try congruence.
  - unfold login. case_decide; reflexivity.
  - unfold join. destruct (List.find _ (teams (db s))); simpl; congruence.
  - rewrite submit_eq.
    destruct (negb (can_afford (db s) teamId bidAmount)); [reflexivity|].
    destruct (has_submitted (db s) teamId roundId); [reflexivity|].
    destruct (foreign_keys && negb (foreign_key_ok (db s) teamId roundId));
      [reflexivity|simpl; congruence].
Qed.

(** X2: every route behind [adminAuth] answers 401 "Unauthorized" to a
    missing or wrong password, whatever the rest of the request, and leaves
    the state as it is. *)
Theorem unauthorized_admin_request (s : server) (req : request) (auth : option string) :
  admin_header req = Some auth -> auth <> pass ->
  handle foreign_keys ADMIN_PASSWORD s req = (s, Resp 401 (JError "Unauthorized")).
Proof.
  intros Hreq Hbad.
  destruct req; simpl in Hreq; try discriminate; injection Hreq as ->; simpl;
    unfold adminAuth; case_decide; congruence.
Qed.

(** X3: the password that the login route accepts is the one that opens
    every route behind [adminAuth]: a request to such a route is answered 401
    exactly when a login with its header would be. *)
Theorem login_agrees_with_adminAuth (s : server) (req : request) (auth : option string) :
  admin_header req = Some auth ->
  (status (snd (login ADMIN_PASSWORD s auth)) = 401
   <-> status (snd (handle foreign_keys ADMIN_PASSWORD s req)) = 401).
Proof.
  intros Hreq. unfold login.
  destruct req; simpl in Hreq; try discriminate; injection Hreq as ->; simpl;
    unfold adminAuth; case_decide; simpl; split; intros E;
    try reflexivity; try discriminate E; try congruence.
Qed.

(** *** Settings *)

(** X4: after the operator sets a key other than "__proto__", the settings
    route shows that key with the new value (an existing value is replaced)
    and every other key as before; the key "__proto__" is never shown. *)
Theorem setting_update_then_read (s : server) (key value : string) :
  key <> "__proto__" ->
  let s' := fst (handle foreign_keys ADMIN_PASSWORD s (POST_admin_settings pass key value)) in
  exists m : gmap string string,
    snd (handle foreign_keys ADMIN_PASSWORD s' GET_settings) = Resp 200 (JSettings m)
    /\ m !! key = Some value
    /\ m !! "__proto__" = None
    /\ forall k : string,
         k <> key -> k <> "__proto__" -> m !! k = settings (db s) !! k.
Proof.
  intros Hkey. simpl. rewrite adminAuth_pass. simpl.
  eexists. split; [reflexivity|]. split; [|split].
  - rewrite lookup_delete_ne by congruence. apply lookup_insert_eq.
  - apply lookup_delete_eq.
  - intros k Hk Hproto. rewrite lookup_delete_ne by congruence.
    apply lookup_insert_ne. congruence.
Qed.

(** X5: the settings table is written by the settings route alone, and by
    it exactly when the password is right: an authenticated settings update
    inserts or replaces the given key and nothing else; a refused one, and
    every other input (a reveal and a reset included), leaves the table as
    it is. *)
Theorem settings_frame (s : server) (i : input) :
  settings (db (step foreign_keys ADMIN_PASSWORD s i))
  = match i with
    | Http (POST_admin_settings auth key value) =>
        if decide (auth = pass) then <[key := value]> (settings (db s))
        else settings (db s)
    | _ => settings (db s)
    end.
Proof.
  destruct i as [req| | |]; simpl; try reflexivity.
  destruct req; simpl; try reflexivity;
    try (unfold adminAuth; case_decide; simpl; reflexivity).
  - unfold login. case_decide; reflexivity.
  - unfold join. destruct (List.find _ (teams (db s))); reflexivity.
  - rewrite submit_eq.
    destruct (negb (can_afford (db s) teamId bidAmount)); [reflexivity|].
    destruct (has_submitted (db s) teamId roundId); [reflexivity|].
    destruct (foreign_keys && negb (foreign_key_ok (db s) teamId roundId)); reflexivity.
  - unfold adminAuth. case_decide; simpl; [|reflexivity].
    destruct (settle_all_frame actualValue
                (List.filter (fun sub => s_round_id sub =? roundId) (submissions (db s)))
                (set_rounds (db s) (map (update_round actualValue roundId) (rounds (db s)))))
      as (_ & E & _).
    exact E.
Qed.

(** *** Joining *)

Lemma find_snoc_new {A : Type} (f : A -> bool) (l : list A) (x : A) :
  List.find f l = None -> f x = true -> List.find f (l ++ [x]) = Some x.
Proof.
  induction l as [|y l IH]; simpl; intros Hl Hx.
  - rewrite Hx. reflexivity.
  - destruct (f y); [discriminate|]. apply IH; assumption.
Qed.

(** X6: joining is idempotent: the answer to a join is a team with the
    given name that is in the table afterwards, and a second join under the
    same name changes nothing and gets the same answer. *)
Theorem join_again (s : server) (name : string) :
  join (fst (join s name)) name = join s name
  /\ exists (id : Z) (b : num),
       snd (join s name) = Resp 200 (JTeam id name b)
       /\ {| t_id := id; t_name := name; t_balance := b |} ∈ teams (db (fst (join s name))).
Proof.
  unfold join at 2 3 4 5.
  destruct (List.find (fun t => String.eqb (t_name t) name) (teams (db s))) as [t|] eqn:E.
  - simpl. unfold join. rewrite E.
    apply find_some in E as [Hin E]. apply String.eqb_eq in E.
    split; [reflexivity|]. exists (t_id t), (t_balance t). rewrite <- E.
    split; [reflexivity|]. apply list_elem_of_In. destruct t. exact Hin.
  - simpl. unfold join. simpl.
    rewrite (find_snoc_new _ _ _ E) by (simpl; apply String.eqb_refl).
    simpl. split; [reflexivity|]. eexists _, _. split; [reflexivity|].
    apply elem_of_app. right. left.
Qed.
End Requests.

(** ** The database as a transition system *)

Section Transitions.
Context {num : Type} `{JsNumber num}.
Variable foreign_keys : bool.
Variable ADMIN_PASSWORD : option string.

Local Abbreviation database := (database num).
Local Abbreviation server := (server num).

(** The writes that the routes perform, each with the tests that guard it. *)
Inductive transition (d : database) : database -> Prop :=
| no_write : transition d d
| write_setting (key value : string) :
    transition d (set_settings d (<[key := value]> (settings d)))
| write_team (name : string) :
    List.find (fun t => String.eqb (t_name t) name) (teams d) = None ->
    transition d (snd (insert_team d name))
| write_round (theme : string) :
    transition d (snd (insert_round (set_rounds d (map force_revealed (rounds d))) theme))
| write_submission (teamId roundId : Z) (predictedValue bidAmount : num) :
    can_afford d teamId bidAmount = true ->
    has_submitted d teamId roundId = false ->
    foreign_keys && negb (foreign_key_ok d teamId roundId) = false ->
    transition d (insert_submission d teamId roundId predictedValue bidAmount)
| write_reveal (roundId : Z) (actualValue : num) :
    transition d
      (foldl (settle actualValue)
             (set_rounds d (map (update_round actualValue roundId) (rounds d)))
             (List.filter (fun sub => s_round_id sub =? roundId) (submissions d)))
| write_reset :
    transition d {| teams := []; rounds := []; settings := settings d;
                    submissions := []; seq_teams := 0; seq_rounds := 0;
                    seq_submissions := 0 |}.

Lemma handle_transition (s : server) (req : request) :
  transition (db s) (db (fst (handle foreign_keys ADMIN_PASSWORD s req))).
Proof.
  destruct req; simpl; try apply no_write;
    try (unfold adminAuth; case_decide; simpl; [|apply no_write]).
  - unfold login. case_decide; apply no_write.
  - apply write_setting.
  - unfold join.
    destruct (List.find _ (teams (db s))) eqn:E; [apply no_write|].
    apply (write_team (db s) name E).
  - apply (write_round (db s) theme).
  - rewrite submit_eq.
    destruct (can_afford (db s) teamId bidAmount) eqn:Hc; simpl; [|apply no_write].
    destruct (has_submitted (db s) teamId roundId) eqn:Hs; [apply no_write|].
    destruct (foreign_keys && negb (foreign_key_ok (db s) teamId roundId)) eqn:Hfk;
      [apply no_write|].
    simpl. apply write_submission; assumption.
  - apply write_reveal.
  - apply no_write.
  - apply write_reset.
Qed.

Lemma step_transition (s : server) (i : input) :
  transition (db s) (db (step foreign_keys ADMIN_PASSWORD s i)).
Proof. destruct i; simpl; try apply no_write. apply handle_transition. Qed.

(** An invariant of the writes holds in every state reached from a fresh
    database. *)
Lemma reachable_invariant (P : database -> Prop) :
  P init_db ->
  (forall d d', transition d d' -> P d -> P d') ->
  forall inputs : list input, P (db (run foreign_keys ADMIN_PASSWORD init inputs)).
Proof.
  intros Hinit Hkeep inputs.
  assert (forall s : server, P (db s) -> P (db (run foreign_keys ADMIN_PASSWORD s inputs)))
    as Hrun.
  { induction inputs as [|i inputs IH]; intros s Hs; simpl; [assumption|].
    apply IH. eapply Hkeep; [apply step_transition|assumption]. }
  apply Hrun. exact Hinit.
Qed.

(** *** Team names *)

Lemma settle_all_names (a : num) (subs : list (submission num)) : forall d : database,
  map t_name (teams (foldl (settle a) d subs)) = map t_name (teams d).
Proof.
  induction subs as [|sub subs IH]; intros d; cbn [foldl]; [reflexivity|].
  rewrite IH, settle_teams, map_map. apply map_ext. intros t.
  unfold update_balance. destruct (t_id t =? s_team_id sub); reflexivity.
Qed.

Lemma unique_names_kept (d d' : database) :
  transition d d' -> NoDup (map t_name (teams d)) -> NoDup (map t_name (teams d')).
Proof.
  intros Ht Hd. destruct Ht as [| |name Hnew| | | |]; simpl; try assumption.
  - rewrite map_app. simpl. apply NoDup_snoc_fresh; [assumption|].
    intros Hin. apply list_elem_of_fmap in Hin as (t & E & Hin).
    apply list_elem_of_In in Hin.
    pose proof (find_none _ _ Hnew t Hin) as Hf. simpl in Hf.
    rewrite <- E, String.eqb_refl in Hf. discriminate.
  - rewrite settle_all_names. assumption.
  - apply NoDup_nil_2.
Qed.

(** X7: team names are unique in every state reached from a fresh database:
    the name column never holds the same name twice. *)
Theorem team_names_unique (inputs : list input) :
  NoDup (map t_name (teams (db (run foreign_keys ADMIN_PASSWORD init inputs)))).
Proof.
  apply (reachable_invariant (fun d => NoDup (map t_name (teams d)))).
  - apply NoDup_nil_2.
  - apply unique_names_kept.
Qed.

(** *** Row ids *)

Lemma max_rowid_bound (ids : list Z) (b : Z) :
  0 <= b -> (forall x, x ∈ ids -> x <= b) -> max_rowid ids <= b.
Proof.
  intros Hb. induction ids as [|y ids IH]; intros Hle; simpl; [assumption|].
  apply Z.max_lub; [apply Hle; left|]. apply IH. intros x Hx. apply Hle. right. assumption.
Qed.

Lemma numbered_next (ids : list Z) (seq : Z) :
  numbered ids seq -> next_rowid seq ids = Z.of_nat (length ids) + 1.
Proof.
  intros [Hids Hseq]. unfold next_rowid.
  assert (max_rowid ids <= Z.of_nat (length ids)) as Hmax.
  { apply max_rowid_bound; [lia|]. intros x Hx. rewrite Hids in Hx.
    apply elem_of_seqZ in Hx. lia. }
  lia.
Qed.

Lemma numbered_snoc (ids : list Z) (seq : Z) :
  numbered ids seq ->
  numbered (ids ++ [next_rowid seq ids]) (next_rowid seq ids).
Proof.
  intros Hn. rewrite (numbered_next ids seq Hn). destruct Hn as [Hids Hseq].
  unfold numbered. rewrite length_app. simpl.
  replace (length ids + 1)%nat with (S (length ids)) by lia.
  split; [|lia]. rewrite seqZ_S, <- Hids. f_equal. f_equal. lia.
Qed.

Lemma numbered_nil : numbered [] 0.
Proof. split; reflexivity. Qed.

Lemma numbered_kept (d d' : database) :
  transition d d' ->
  numbered (map t_id (teams d)) (seq_teams d)
  /\ numbered (map r_id (rounds d)) (seq_rounds d)
  /\ numbered (map s_id (submissions d)) (seq_submissions d) ->
  numbered (map t_id (teams d')) (seq_teams d')
  /\ numbered (map r_id (rounds d')) (seq_rounds d')
  /\ numbered (map s_id (submissions d')) (seq_submissions d').
Proof.
  intros Ht (Nt & Nr & Ns).
  destruct Ht; simpl; try (split; [assumption|split; assumption]).
  - rewrite map_app. simpl. split; [apply numbered_snoc; assumption|]. split; assumption.
  - rewrite map_app, map_force_revealed_ids. simpl.
    split; [assumption|]. split; [apply numbered_snoc; assumption|assumption].
  - rewrite map_app. simpl.
    split; [assumption|]. split; [assumption|apply numbered_snoc; assumption].
  - destruct (settle_all_frame actualValue
                (List.filter (fun sub => s_round_id sub =? roundId) (submissions d))
                (set_rounds d (map (update_round actualValue roundId) (rounds d))))
      as (E1 & _ & E3 & E4 & E5 & E6 & E7 & _).
    rewrite E1, E3, E4, E5, E6, E7. simpl.
    assert (map r_id (map (update_round actualValue roundId) (rounds d)) = map r_id (rounds d))
      as ->.
    { rewrite map_map. apply map_ext. intros r. apply update_round_id. }
    split; [assumption|split; assumption].
  - split; [|split]; apply numbered_nil.
Qed.

Lemma numbered_reachable (inputs : list input) :
  let d := db (run foreign_keys ADMIN_PASSWORD init inputs) in
  numbered (map t_id (teams d)) (seq_teams d)
  /\ numbered (map r_id (rounds d)) (seq_rounds d)
  /\ numbered (map s_id (submissions d)) (seq_submissions d).
Proof.
  apply (reachable_invariant
           (fun d => numbered (map t_id (teams d)) (seq_teams d)
                     /\ numbered (map r_id (rounds d)) (seq_rounds d)
                     /\ numbered (map s_id (submissions d)) (seq_submissions d))).
  - split; [|split]; apply numbered_nil.
  - apply numbered_kept.
Qed.

(** X8: in every state reached from a fresh database the ids of the teams,
    of the rounds and of the submissions are 1, 2, ..., n in table order
    (so the n-th row created since the last reset has id n, and numbering
    restarts at 1 after a reset). *)
Theorem ids_are_consecutive (inputs : list input) :
  let d := db (run foreign_keys ADMIN_PASSWORD init inputs) in
  map t_id (teams d) = seqZ 1 (Z.of_nat (length (teams d)))
  /\ map r_id (rounds d) = seqZ 1 (Z.of_nat (length (rounds d)))
  /\ map s_id (submissions d) = seqZ 1 (Z.of_nat (length (submissions d))).
Proof.
  simpl. destruct (numbered_reachable inputs) as ((Et & _) & (Er & _) & (Es & _)).
  rewrite length_map in Et, Er, Es. repeat split; assumption.
Qed.

(** *** The life of a round *)

Lemma latest_only_open_kept (d d' : database) :
  transition d d' -> latest_only_open (rounds d) -> latest_only_open (rounds d').
Proof.
  intros Ht Hd. destruct Ht; simpl; try assumption.
  - intros i r Hi. apply lookup_snoc_Some in Hi as [[Hlt Hi]|[Hi <-]].
    + apply (list_lookup_fmap_Some_1 force_revealed) in Hi as (r0 & -> & _).
      left. rewrite force_revealed_eq. reflexivity.
    + right. split; [reflexivity|]. rewrite length_app. simpl. lia.
  - destruct (settle_all_frame actualValue
                (List.filter (fun sub => s_round_id sub =? roundId) (submissions d))
                (set_rounds d (map (update_round actualValue roundId) (rounds d))))
      as (E1 & _).
    rewrite E1. simpl. intros i r Hi.
    apply (list_lookup_fmap_Some_1 (update_round actualValue roundId)) in Hi
      as (r0 & -> & Hi).
    unfold update_round. destruct (r_id r0 =? roundId); [left; reflexivity|].
    rewrite length_map. apply (Hd i r0 Hi).
  - intros i r Hi. inversion Hi.
Qed.

(** X9: in every state reached from a fresh database no round has status
    closed, and every round but the latest is revealed: at most one round is
    open, and it is the current one. *)
Theorem only_latest_round_open (inputs : list input) (i : nat) (r : round num) :
  let d := db (run foreign_keys ADMIN_PASSWORD init inputs) in
  rounds d !! i = Some r ->
  r_status r = revealed \/ (r_status r = open /\ S i = length (rounds d)
                            /\ current_round d = Some r).
Proof.
  intros d Hi.
  pose proof (reachable_invariant (fun d => latest_only_open (rounds d))) as Hinv.
  assert (latest_only_open (rounds d)) as Hopen.
  { apply Hinv; [intros k x Hk; inversion Hk|apply latest_only_open_kept]. }
  destruct (Hopen i r Hi) as [Hrev|[Hop Hlast]]; [left; assumption|].
  right. split; [assumption|]. split; [assumption|].
  destruct (numbered_reachable inputs) as (_ & (Er & _) & _). fold d in Er.
  rewrite length_map in Er.
  assert (exists rs, rounds d = rs ++ [r]) as [rs Hrs].
  { destruct (rounds d) as [|x l] eqn:El using rev_ind; [inversion Hi|].
    exists l. rewrite length_app in Hlast. simpl in Hlast.
    rewrite lookup_app_r in Hi by lia.
    replace (i - length l)%nat with 0%nat in Hi by lia. simpl in Hi. congruence. }
  eapply current_round_last; [exact Hrs|].
  intros r' Hr'. rewrite Hrs, map_app, length_app in Er. simpl in Er.
  replace (length rs + 1)%nat with (S (length rs)) in Er by lia.
  rewrite seqZ_S in Er. apply app_inj_tail in Er as [Ers Erid].
  rewrite Erid.
  assert (r_id r' ∈ map r_id rs) as Hin by (apply list_elem_of_fmap; eauto).
  rewrite Ers in Hin. apply elem_of_seqZ in Hin. lia.
Qed.

(** X10: a row of the rounds table is never removed short of a reset, and
    through every input it keeps its position, id and theme; once revealed it
    stays revealed, and once it has an actual value it keeps having one. *)
Theorem round_never_reopens (s : server) (i : input) (k : nat) (r : round num) :
  let d' := db (step foreign_keys ADMIN_PASSWORD s i) in
  rounds (db s) !! k = Some r ->
  rounds d' = []
  \/ exists r' : round num,
       rounds d' !! k = Some r'
       /\ r_id r' = r_id r /\ r_theme r' = r_theme r
       /\ (r_status r = revealed -> r_status r' = revealed)
       /\ (is_Some (r_actual_value r) -> is_Some (r_actual_value r')).
Proof.
  intros d' Hk. subst d'.
  destruct (step_transition s i); simpl; try (right; exists r; tauto).
  - right. exists (force_revealed r). split.
    + rewrite lookup_app_l by (rewrite length_map; eapply lookup_lt_Some, Hk).
      apply (list_lookup_fmap_Some_2 force_revealed). assumption.
    + rewrite force_revealed_eq. simpl. tauto.
  - destruct (settle_all_frame actualValue
                (List.filter (fun sub => s_round_id sub =? roundId) (submissions (db s)))
                (set_rounds (db s) (map (update_round actualValue roundId) (rounds (db s)))))
      as (E1 & _).
    rewrite E1. simpl. right. exists (update_round actualValue roundId r). split.
    + apply (list_lookup_fmap_Some_2 (update_round actualValue roundId)). assumption.
    + unfold update_round. destruct (r_id r =? roundId); simpl; [|tauto].
      repeat split; eauto.
  - left. reflexivity.
Qed.

(** *** Submissions are written once *)

Lemma update_submission_bid (f e : num) (i : Z) (sub : submission num) :
  bid_of (update_submission f e i sub) = bid_of sub.
Proof. unfold update_submission. destruct (s_id sub =? i); reflexivity. Qed.

Lemma settle_all_bids (a : num) (subs : list (submission num)) : forall d : database,
  map bid_of (submissions (foldl (settle a) d subs)) = map bid_of (submissions d).
Proof.
  induction subs as [|sub subs IH]; intros d; cbn [foldl]; [reflexivity|].
  rewrite IH, settle_submissions, map_map. apply map_ext. intros x.
  apply update_submission_bid.
Qed.

(** X11: a submission is written once: through every input the existing
    rows keep their order, id, team, round, predicted value and bid (only
    score and error_percent are ever updated); an input appends at most one
    row, and rows are removed by a reset only, all at once. *)
Theorem submissions_written_once (s : server) (i : input) :
  let d' := db (step foreign_keys ADMIN_PASSWORD s i) in
  submissions d' = []
  \/ exists extra : list (submission num),
       map bid_of (submissions d') = map bid_of (submissions (db s)) ++ map bid_of extra
       /\ (length extra <= 1)%nat.
Proof.
  simpl. destruct (step_transition s i); simpl;
    try (right; exists []; rewrite app_nil_r; split; [reflexivity|simpl; lia]).
  - right. eexists [_]. rewrite map_app. split; [reflexivity|simpl; lia].
  - right. exists []. rewrite app_nil_r, settle_all_bids. split; [reflexivity|simpl; lia].
  - left. reflexivity.
Qed.

End Transitions.

(** ** With the foreign keys enforced *)

Section Enforced.
Context {num : Type} `{JsNumber num}.
Variable ADMIN_PASSWORD : option string.

Local Abbreviation database := (database num).

Lemma consistent_kept (fk : bool) (d d' : database) :
  transition fk d d' -> consistent fk d -> consistent fk d'.
Proof.
  intros Ht Hc. destruct Ht as [| |name Hnew|theme|t r p b Hc1 Hc2 Hc3|rid a|].
  - assumption.
  - apply consistent_settings. assumption.
  - apply consistent_insert_team. assumption.
  - apply consistent_start_round. assumption.
  - apply consistent_insert_submission; assumption.
  - apply consistent_reveal. assumption.
  - unfold consistent, primary_keys, one_submission_per_team_and_round. simpl.
    split; [repeat split; apply NoDup_nil_2|split; [apply NoDup_nil_2|]].
    intros _ sub Hsub. inversion Hsub.
Qed.

Lemma open_unsettled_kept (d d' : database) :
  transition true d d' -> consistent true d -> open_unsettled d -> open_unsettled d'.
Proof.
  intros Ht ((_ & _ & Ks) & _ & Href) Hd. specialize (Href eq_refl).
  destruct Ht as [| |name Hnew|theme|t r p b Hc1 Hc2 Hc3|rid a|]; simpl;
    try assumption.
  - (* a new round: nothing refers to it yet *)
    intros sub r Hsub Hr Hid Hop. simpl in *.
    apply elem_of_app in Hr as [Hr|Hr].
    + apply list_elem_of_fmap in Hr as (r0 & -> & _).
      rewrite force_revealed_eq in Hop. discriminate.
    + apply list_elem_of_singleton in Hr. subst r. simpl in Hid.
      destruct (Href sub Hsub) as [_ Hin].
      rewrite <- Hid, <- (map_force_revealed_ids (rounds d)) in Hin.
      exfalso. exact (next_rowid_not_in _ _ Hin).
  - (* a new submission is unsettled *)
    intros sub r0 Hsub Hr Hid Hop. simpl in *.
    apply elem_of_app in Hsub as [Hsub|Hsub]; [eapply Hd; eassumption|].
    apply list_elem_of_singleton in Hsub. subst sub. split; reflexivity.
  - (* a reveal settles the submissions of a round that it marks revealed *)
    intros sub r Hsub Hr Hid Hop.
    destruct (settle_all_frame a
                (List.filter (fun sub => s_round_id sub =? rid) (submissions d))
                (set_rounds d (map (update_round a rid) (rounds d))))
      as (E1 & _).
    rewrite E1 in Hr. simpl in Hr.
    apply list_elem_of_fmap in Hr as (r0 & -> & Hr0).
    rewrite update_round_id in Hid.
    unfold update_round in Hop. destruct (r_id r0 =? rid) eqn:Er; [discriminate|].
    pose proof (reveal_stores_scores (Server d []) rid a Ks) as Hst.
    change (submissions (db (fst (reveal rid a (Server d [])))))
      with (submissions
              (foldl (settle a) (set_rounds d (map (update_round a rid) (rounds d)))
                     (List.filter (fun sub => s_round_id sub =? rid) (submissions d))))
      in Hst.
    rewrite Hst in Hsub. simpl in Hsub.
    apply list_elem_of_fmap in Hsub as (x & -> & Hx).
    destruct (s_round_id x =? rid) eqn:Ex.
    + simpl in Hid. congruence.
    + apply (Hd x r0 Hx Hr0 Hid Hop).
  - intros sub r Hsub. inversion Hsub.
Qed.

(** X13: with the foreign keys enforced, in every state reached from a fresh
    database the submissions of a round that is still open are unsettled:
    no error_percent and score 0.  Results exist only for rounds that have
    left the open state. *)
Theorem open_round_is_unsettled (inputs : list input) (sub : submission num)
    (r : round num) :
  let d := db (run true ADMIN_PASSWORD init inputs) in
  sub ∈ submissions d -> r ∈ rounds d -> r_id r = s_round_id sub -> r_status r = open ->
  s_error_percent sub = None /\ s_score sub = num_of_Z 0.
Proof.
  intros d Hsub Hr Hid Hop.
  assert (consistent true d /\ open_unsettled d) as [_ Hu].
  { apply (reachable_invariant true ADMIN_PASSWORD
             (fun d => consistent true d /\ open_unsettled d)).
    - split; [apply consistent_init|]. intros x y Hx. inversion Hx.
    - intros d0 d1 Ht [Hc Ho]. split.
      + eapply consistent_kept; eassumption.
      + eapply open_unsettled_kept; eassumption. }
  eapply Hu; eassumption.
Qed.

End Enforced.

(** ** Settlement, team by team *)

Section PerTeam.
Context {num : Type} `{JsNumber num}.

Local Abbreviation team := (team num).
Local Abbreviation submission := (submission num).

Lemma settle_all_teams (a : num) (subs : list submission) : forall d : database num,
  teams (foldl (settle a) d subs)
  = map (fun t => foldl (fun t' y => update_balance (s_bid_amount y)
                                       (snd (score_submission a y)) (s_team_id y) t')
                        t subs)
        (teams d).
Proof.
  induction subs as [|y subs IH]; intros d; cbn [foldl].
  - symmetry. apply map_id.
  - rewrite IH, settle_teams, map_map. reflexivity.
Qed.

Lemma loop_skips_team (a : num) (t : team) (ys : list submission) :
  (forall y, y ∈ ys -> s_team_id y <> t_id t) ->
  foldl (fun t' y => update_balance (s_bid_amount y) (snd (score_submission a y))
                                    (s_team_id y) t') t ys = t.
Proof.
  induction ys as [|y ys IH]; intros Hno; cbn [foldl]; [reflexivity|].
  unfold update_balance at 2.
  destruct (Z.eqb_spec (t_id t) (s_team_id y)) as [E|_].
  - exfalso. apply (Hno y); [left|congruence].
  - apply IH. intros y' Hy'. apply Hno. right. assumption.
Qed.

Lemma loop_on_team (a : num) (t : team) (ys : list submission) :
  NoDup (map s_team_id ys) ->
  foldl (fun t' y => update_balance (s_bid_amount y) (snd (score_submission a y))
                                    (s_team_id y) t') t ys
  = match List.find (fun y => s_team_id y =? t_id t) ys with
    | Some y => {| t_id := t_id t; t_name := t_name t;
                   t_balance := num_add (num_sub (t_balance t) (s_bid_amount y))
                                        (snd (score_submission a y)) |}
    | None => t
    end.
Proof.
  induction ys as [|y ys IH]; intros Hnd; cbn [foldl List.find]; [reflexivity|].
  simpl in Hnd. apply NoDup_cons in Hnd as [Hy Hnd].
  unfold update_balance at 2.
  destruct (Z.eqb_spec (s_team_id y) (t_id t)) as [E|Hne].
  - rewrite <- E, Z.eqb_refl. apply loop_skips_team.
    intros y' Hy' E'. apply Hy. simpl in E'. rewrite <- E'.
    apply list_elem_of_fmap. eauto.
  - destruct (Z.eqb_spec (t_id t) (s_team_id y)) as [E|_]; [congruence|].
    apply IH. assumption.
Qed.

Lemma find_filter {A : Type} (f g : A -> bool) (l : list A) :
  List.find f (List.filter g l) = List.find (fun x => f x && g x) l.
Proof.
  induction l as [|x l IH]; simpl; [reflexivity|].
  destruct (g x); simpl.
  - rewrite andb_true_r. destruct (f x); [reflexivity|exact IH].
  - rewrite andb_false_r. exact IH.
Qed.

Lemma one_team_per_round (l : list submission) (roundId : Z) :
  NoDup (map (fun sub => (s_team_id sub, s_round_id sub)) l) ->
  NoDup (map s_team_id (List.filter (fun sub => s_round_id sub =? roundId) l)).
Proof.
  induction l as [|x l IH]; intros Hnd; simpl; [apply NoDup_nil_2|].
  simpl in Hnd. apply NoDup_cons in Hnd as [Hx Hnd].
  destruct (Z.eqb_spec (s_round_id x) roundId) as [E|_]; [|apply IH; assumption].
  simpl. apply NoDup_cons. split; [|apply IH; assumption].
  intros Hin. apply Hx. apply list_elem_of_fmap in Hin as (y & Et & Hy).
  apply list_elem_of_In, filter_In in Hy as [Hy Er]. apply Z.eqb_eq in Er.
  apply list_elem_of_fmap. exists y. split; [congruence|apply list_elem_of_In; assumption].
Qed.

(** In the model, when the table holds at most one submission per (team,
    round), a reveal updates each balance at most once. *)
Lemma reveal_teams_once (s : server num) (roundId : Z) (a : num) :
  one_submission_per_team_and_round (db s) ->
  teams (db (fst (reveal roundId a s)))
  = map (fun t =>
           match List.find (fun sub => (s_team_id sub =? t_id t) && (s_round_id sub =? roundId))
                           (submissions (db s)) with
           | Some sub =>
               {| t_id := t_id t; t_name := t_name t;
                  t_balance := num_add (num_sub (t_balance t) (s_bid_amount sub))
                                       (snd (score_submission a sub)) |}
           | None => t
           end)
        (teams (db s)).
Proof.
  intros Hone. unfold reveal. cbn [fst db]. rewrite settle_all_teams.
  cbn [teams submissions set_rounds]. apply map_ext. intros t.
  rewrite loop_on_team by (apply one_team_per_round; exact Hone).
  rewrite find_filter. reflexivity.
Qed.

End PerTeam.

(** ** What a reveal does, whatever the status of the round *)

Section Resettlement.
Context {num : Type} `{JsNumber num}.
Variable foreign_keys : bool.
Variable ADMIN_PASSWORD : option string.

Local Abbreviation pass := (Some (correctPassword ADMIN_PASSWORD)).

(** C1 (as amended): the reveal route has no guard on the status of the
    round.  Called by the operator on a round that is already revealed, it
    answers 200 [{success: true}], exactly as on the same database with the
    round still open, and settles again: the actual value of the round is
    overwritten with the new one, every submission of the round gets the
    error percent and final score computed from the new actual value, and
    every team with a submission in the round has its balance changed once
    more, to [balance - bid_amount + finalScore]; submissions of other
    rounds and the other teams are untouched.  (Submission ids are unique,
    there is one submission per team and round, and no value is NaN.) *)
Theorem revealed_round_is_settled_again (s : server num) (roundId : Z)
    (actualValue : num) (r : round num) :
  r ∈ rounds (db s) -> r_id r = roundId -> r_status r = revealed ->
  NoDup (map s_id (submissions (db s))) ->
  one_submission_per_team_and_round (db s) ->
  storable actualValue ->
  (forall sub, sub ∈ submissions (db s) -> s_round_id sub = roundId ->
     storable (fst (score_submission actualValue sub))
     /\ storable (snd (score_submission actualValue sub))
     /\ forall t, t ∈ teams (db s) -> t_id t = s_team_id sub ->
          storable (num_add (num_sub (t_balance t) (s_bid_amount sub))
                            (snd (score_submission actualValue sub)))) ->
  let request := POST_admin_rounds_reveal pass roundId actualValue in
  let result := handle foreign_keys ADMIN_PASSWORD s request in
  snd result = Resp 200 JSuccess
  /\ result = handle foreign_keys ADMIN_PASSWORD (with_round_status roundId open s) request
  /\ {| r_id := roundId; r_theme := r_theme r; r_actual_value := Some actualValue;
        r_status := revealed |} ∈ rounds (db (fst result))
  /\ submissions (db (fst result))
     = map (fun sub =>
              if s_round_id sub =? roundId
              then {| s_id := s_id sub; s_team_id := s_team_id sub;
                      s_round_id := s_round_id sub;
                      s_predicted_value := s_predicted_value sub;
                      s_bid_amount := s_bid_amount sub;
                      s_score := snd (score_submission actualValue sub);
                      s_error_percent := Some (fst (score_submission actualValue sub)) |}
              else sub)
           (submissions (db s))
  /\ teams (db (fst result))
     = map (fun t =>
              match List.find (fun sub => (s_team_id sub =? t_id t)
                                          && (s_round_id sub =? roundId))
                              (submissions (db s)) with
              | Some sub =>
                  {| t_id := t_id t; t_name := t_name t;
                     t_balance := num_add (num_sub (t_balance t) (s_bid_amount sub))
                                          (snd (score_submission actualValue sub)) |}
              | None => t
              end)
           (teams (db s)).
Proof.
  intros Hr Hid _ Hkeys Hone _ _ request result.
  destruct (reveal_ignores_round_status foreign_keys ADMIN_PASSWORD roundId open
              actualValue s) as [Hsame Hok].
  fold request in Hsame, Hok. fold result in Hok.
  split; [exact Hok|]. split; [symmetry; exact Hsame|].
  subst result request. simpl. rewrite adminAuth_pass.
  split; [|split].
  - unfold reveal. cbn [fst db].
    destruct (settle_all_frame actualValue
                (List.filter (fun sub => s_round_id sub =? roundId) (submissions (db s)))
                (set_rounds (db s) (map (update_round actualValue roundId) (rounds (db s)))))
      as (E1 & _).
    cbn [submissions set_rounds] in E1 |- *. rewrite E1. cbn [rounds set_rounds].
    apply list_elem_of_fmap. exists r. split; [|assumption].
    unfold update_round. rewrite Hid, Z.eqb_refl. reflexivity.
  - apply (reveal_stores_scores s roundId actualValue Hkeys).
  - apply (reveal_teams_once s roundId actualValue Hone).
Qed.

(** C8 (as amended): a reveal by the operator updates each balance at most
    once, with the arithmetic of the server: when the table holds at most
    one submission per (team, round) and no new balance is NaN, every team
    with a submission in the round ends with
    [balance - bid_amount + finalScore], every other team keeps its balance,
    and no team is added or removed; and no input other than a reveal
    changes a balance: a join can only append a team with balance 2000, a
    reset can only empty the table, and every other input leaves the teams
    table as it is. *)
Theorem settlement_updates_each_balance_once :
  (forall (s : server num) (roundId : Z) (actualValue : num),
      one_submission_per_team_and_round (db s) ->
      (forall sub t, sub ∈ submissions (db s) -> s_round_id sub = roundId ->
                     t ∈ teams (db s) -> t_id t = s_team_id sub ->
                     storable (num_add (num_sub (t_balance t) (s_bid_amount sub))
                                       (snd (score_submission actualValue sub)))) ->
      teams (db (fst (handle foreign_keys ADMIN_PASSWORD s
                             (POST_admin_rounds_reveal pass roundId actualValue))))
      = map (fun t =>
               match List.find (fun sub => (s_team_id sub =? t_id t)
                                           && (s_round_id sub =? roundId))
                               (submissions (db s)) with
               | Some sub =>
                   {| t_id := t_id t; t_name := t_name t;
                      t_balance := num_add (num_sub (t_balance t) (s_bid_amount sub))
                                           (snd (score_submission actualValue sub)) |}
               | None => t
               end)
            (teams (db s)))
  /\ (forall (s : server num) (i : input),
         let ts' := teams (db (step foreign_keys ADMIN_PASSWORD s i)) in
         match i with
         | Http (POST_admin_rounds_reveal _ _ _) => True
         | Http (POST_teams_join name) =>
             ts' = teams (db s)
             \/ exists id, ts' = teams (db s) ++
                                   [{| t_id := id; t_name := name;
                                       t_balance := num_of_Z 2000 |}]
         | Http (POST_admin_reset _) => ts' = teams (db s) \/ ts' = []
         | _ => ts' = teams (db s)
         end).
Proof.
  split.
  - intros s roundId actualValue Hone _. simpl. rewrite adminAuth_pass.
    apply (reveal_teams_once s roundId actualValue Hone).
  - intros s i. apply (teams_frame foreign_keys ADMIN_PASSWORD s i).
Qed.

End Resettlement.

(** ** The hub *)

Section Hub.
Context {num : Type} `{JsNumber num}.
Variable foreign_keys : bool.
Variable ADMIN_PASSWORD : option string.

Lemma deliver_nil (cs : list (client num)) : deliver [] cs = cs.
Proof.
  unfold deliver. rewrite <- (map_id cs) at 2. apply map_ext. intros c.
  case_decide; [|reflexivity]. rewrite app_nil_r. destruct c; reflexivity.
Qed.

Lemma broadcast_deliver (e : event num) (evs : list (event num)) (cs : list (client num)) :
  broadcast e (deliver evs cs) = deliver (evs ++ [e]) cs.
Proof.
  unfold broadcast, deliver. rewrite map_map. apply map_ext. intros c.
  destruct (decide (readyState c = OPEN)) as [Ho|Hn]; simpl.
  - rewrite decide_True by assumption. unfold send. simpl. rewrite <- app_assoc.
    reflexivity.
  - rewrite decide_False by assumption. reflexivity.
Qed.

Lemma handle_clients (s : server num) (req : request) :
  clients (fst (handle foreign_keys ADMIN_PASSWORD s req)) = clients s
  \/ exists e : event num,
       clients (fst (handle foreign_keys ADMIN_PASSWORD s req)) = broadcast e (clients s).
Proof.
  destruct req; simpl; try (left; reflexivity).
  - unfold login. case_decide; left; reflexivity.
  - unfold adminAuth. case_decide; simpl; [right; eauto|left; reflexivity].
  - unfold join. destruct (List.find _ (teams (db s))); left; reflexivity.
  - unfold adminAuth. case_decide; simpl; [right; eauto|left; reflexivity].
  - rewrite submit_eq.
    destruct (negb (can_afford (db s) teamId bidAmount)); [left; reflexivity|].
    destruct (has_submitted (db s) teamId roundId); [left; reflexivity|].
    destruct (foreign_keys && negb (foreign_key_ok (db s) teamId roundId));
      [left; reflexivity|right; simpl; eauto].
  - unfold adminAuth. case_decide; simpl; [right; eauto|left; reflexivity].
  - unfold adminAuth. case_decide; left; reflexivity.
  - unfold adminAuth. case_decide; simpl; [right; eauto|left; reflexivity].
Qed.

Lemma requests_deliver (s : server num) (reqs : list request) :
  exists evs : list (event num),
    clients (run foreign_keys ADMIN_PASSWORD s (map Http reqs)) = deliver evs (clients s)
    /\ (length evs <= length reqs)%nat.
Proof.
  induction reqs as [|req reqs IH] using rev_ind.
  - exists []. simpl. rewrite deliver_nil. split; [reflexivity|lia].
  - destruct IH as (evs & E & Hlen).
    rewrite map_app. unfold run in *. rewrite foldl_app. simpl.
    rewrite length_app. simpl.
    destruct (handle_clients (foldl (step foreign_keys ADMIN_PASSWORD) s (map Http reqs)) req)
      as [E'|(e & E')]; rewrite E', E.
    + exists evs. split; [reflexivity|lia].
    + exists (evs ++ [e]). rewrite broadcast_deliver, length_app. simpl.
      split; [reflexivity|lia].
Qed.

(** X15: over any sequence of requests the client set keeps its members and
    their socket states, and there is one list of messages, at most one per
    request, that every client whose socket is OPEN has received in the same
    order, appended to what it had; a client that is not OPEN receives
    nothing. *)
Theorem open_clients_receive_alike (s : server num) (reqs : list request) :
  let cs' := clients (run foreign_keys ADMIN_PASSWORD s (map Http reqs)) in
  map readyState cs' = map readyState (clients s)
  /\ exists evs : list (event num),
       (length evs <= length reqs)%nat
       /\ cs' = map (fun c => if decide (readyState c = OPEN)
                               then {| readyState := readyState c;
                                       received := received c ++ evs |}
                               else c) (clients s).
Proof.
  destruct (requests_deliver s reqs) as (evs & E & Hlen). simpl. rewrite E. split.
  - unfold deliver. rewrite map_map. apply map_ext. intros c. case_decide; reflexivity.
  - exists evs. split; [assumption|reflexivity].
Qed.

End Hub.

(** ** The read routes *)

Section Reads.
Context {num : Type} `{JsNumber num}.
Variable foreign_keys : bool.
Variable ADMIN_PASSWORD : option string.

Local Abbreviation team := (team num).
Local Abbreviation round := (round num).
Local Abbreviation pass := (Some (correctPassword ADMIN_PASSWORD)).

Lemma latest_is_max (rs : list round) : forall acc : option round,
  match foldl (fun best r =>
                 match best with
                 | None => Some r
                 | Some b => if r_id b <? r_id r then Some r else Some b
                 end) acc rs with
  | None => acc = None /\ rs = []
  | Some m => (acc = Some m \/ m ∈ rs)
              /\ (forall b, acc = Some b -> r_id b <= r_id m)
              /\ (forall r, r ∈ rs -> r_id r <= r_id m)
  end.
Proof.
  induction rs as [|r rs IH]; intros acc; cbn [foldl].
  - destruct acc as [b|]; [|auto]. split; [left; reflexivity|]. split.
    + intros b' E. injection E as <-. lia.
    + intros r Hr. inversion Hr.
  - match goal with |- context [foldl ?f ?acc' rs] => specialize (IH acc') end.
    destruct (foldl _ _ rs) as [m|].
    + destruct IH as (Hm & Hacc & Hrs).
      assert (r_id r <= r_id m) as Hr.
      { destruct acc as [b|]; [|apply Hacc; reflexivity].
        destruct (Z.ltb_spec (r_id b) (r_id r)); [apply Hacc; reflexivity|].
        specialize (Hacc b eq_refl). lia. }
      split; [|split].
      * destruct Hm as [Hm|Hm]; [|right; right; assumption].
        destruct acc as [b|]; [|injection Hm as <-; right; left].
        destruct (r_id b <? r_id r); injection Hm as <-; [right; left|left; reflexivity].
      * intros b ->. destruct (Z.ltb_spec (r_id b) (r_id r)).
        -- specialize (Hacc r eq_refl). lia.
        -- apply Hacc. reflexivity.
      * intros r' Hr'. apply elem_of_cons in Hr' as [->|Hr']; [assumption|].
        apply Hrs. assumption.
    + destruct IH as [E _]. destruct acc as [b|]; [|discriminate].
      destruct (r_id b <? r_id r); discriminate.
Qed.

(** X16: the current-round route answers null exactly when there is no
    round, and otherwise a row of the rounds table whose id no other row
    exceeds; it changes nothing. *)
Theorem current_round_is_latest (s : server num) :
  fst (handle foreign_keys ADMIN_PASSWORD s GET_rounds_current) = s
  /\ exists latest : option round,
       snd (handle foreign_keys ADMIN_PASSWORD s GET_rounds_current)
       = Resp 200 (JRound latest)
       /\ match latest with
          | None => rounds (db s) = []
          | Some m => m ∈ rounds (db s)
                      /\ forall r, r ∈ rounds (db s) -> r_id r <= r_id m
          end.
Proof.
  simpl. split; [reflexivity|]. eexists. split; [reflexivity|].
  unfold current_round. pose proof (latest_is_max (rounds (db s)) None) as Hmax.
  destruct (foldl _ None (rounds (db s))) as [m|].
  - destruct Hmax as ([Hm|Hm] & _ & Hrs); [discriminate|]. split; assumption.
  - apply Hmax.
Qed.

Lemma insert_by_balance_perm (t : team) (l : list team) :
  insert_by_balance t l ≡ₚ t :: l.
Proof.
  induction l as [|u l IH]; simpl; [reflexivity|].
  destruct (num_ltb (t_balance t) (t_balance u)); [|reflexivity].
  rewrite IH. apply Permutation_swap.
Qed.

(** X17: the teams route lists every team of the table exactly once (the
    answer is a rearrangement of the table) and changes nothing. *)
Theorem leaderboard_lists_every_team (s : server num) :
  fst (handle foreign_keys ADMIN_PASSWORD s GET_teams) = s
  /\ exists l : list team,
       snd (handle foreign_keys ADMIN_PASSWORD s GET_teams) = Resp 200 (JTeams l)
       /\ l ≡ₚ teams (db s).
Proof.
  simpl. split; [reflexivity|]. eexists. split; [reflexivity|].
  unfold order_by_balance_desc. induction (teams (db s)) as [|t l IH]; simpl; [reflexivity|].
  rewrite insert_by_balance_perm, IH. reflexivity.
Qed.

Lemma filter_key_absent (ts : list team) (i : Z) :
  i ∉ map t_id ts -> List.filter (fun u => t_id u =? i) ts = [].
Proof.
  induction ts as [|u ts IH]; intros Hno; simpl; [reflexivity|].
  simpl in Hno. apply not_elem_of_cons in Hno as [Hne Hno].
  destruct (Z.eqb_spec (t_id u) i) as [E|_]; [congruence|]. apply IH. assumption.
Qed.

Lemma filter_by_key (ts : list team) (t : team) :
  NoDup (map t_id ts) -> t ∈ ts ->
  List.filter (fun u => t_id u =? t_id t) ts = [t].
Proof.
  induction ts as [|u ts IH]; intros Hnd Hin; [inversion Hin|].
  simpl in Hnd. apply NoDup_cons in Hnd as [Hu Hnd]. simpl.
  apply elem_of_cons in Hin as [<-|Hin].
  - rewrite Z.eqb_refl, filter_key_absent by assumption. reflexivity.
  - destruct (Z.eqb_spec (t_id u) (t_id t)) as [E|_]; [|apply IH; assumption].
    exfalso. apply Hu. rewrite E. apply list_elem_of_fmap. eauto.
Qed.

(** X18: when team ids are unique and every submission of the round belongs
    to a team of the table, the operator's submissions route lists exactly
    the submissions of the round, in table order and once each, every one
    with the name of the team it belongs to. *)
Theorem submissions_listed_with_team_names (s : server num) (roundId : Z) :
  NoDup (map t_id (teams (db s))) ->
  (forall sub, sub ∈ submissions_of roundId (db s) ->
               s_team_id sub ∈ map t_id (teams (db s))) ->
  exists rows : list (submission num * string),
    snd (handle foreign_keys ADMIN_PASSWORD s (GET_admin_submissions pass roundId))
    = Resp 200 (JSubmissions rows)
    /\ map fst rows = submissions_of roundId (db s)
    /\ forall sub name, (sub, name) ∈ rows ->
         exists t, t ∈ teams (db s) /\ t_id t = s_team_id sub /\ t_name t = name.
Proof.
  intros Hnd Hteams. simpl. rewrite adminAuth_pass. unfold get_submissions. simpl.
  eexists. split; [reflexivity|].
  unfold submissions_with_team_name. fold (submissions_of roundId (db s)).
  split.
  - induction (submissions_of roundId (db s)) as [|sub l IH]; [reflexivity|].
    simpl. rewrite map_app, IH by (intros x Hx; apply Hteams; right; assumption).
    pose proof (Hteams sub (list_elem_of_here _ _)) as Hin.
    apply list_elem_of_fmap in Hin as (t & E & Ht).
    rewrite E, (filter_by_key _ t Hnd Ht). reflexivity.
  - intros sub name Hrow. apply list_elem_of_In, in_flat_map in Hrow as (x & _ & Hrow).
    apply in_map_iff in Hrow as (t & E & Ht). injection E as <- <-.
    apply filter_In in Ht as [Ht Eid]. apply Z.eqb_eq in Eid.
    exists t. split; [apply list_elem_of_In; assumption|]. split; [assumption|reflexivity].
Qed.

End Reads.

(** ** More on exact arithmetic *)

Section ExactPayout.
Local Open Scope Qc_scope.

Local Abbreviation lit := (@num_of_Z Qc Qc_JsNumber).

Ltac closed_order := first [vm_compute; reflexivity | vm_compute; discriminate].

Lemma Qc_leb_le (x y : Qc) : Qle_bool x y = true <-> x <= y.
Proof. apply Qle_bool_iff. Qed.

Lemma Qc_leb_gt (x y : Qc) : Qle_bool x y = false <-> y < x.
Proof.
  split.
  - intros E. apply Qcnot_le_lt. intros Hle. apply Qc_leb_le in Hle. congruence.
  - intros Hlt. apply not_true_is_false. intros E. apply Qc_leb_le in E.
    exact (Qclt_not_le _ _ Hlt E).
Qed.

Lemma lit_0 : lit 0 = 0.
Proof. apply Qc_is_canon. reflexivity. Qed.

Lemma lit_1 : lit 1 = 1.
Proof. apply Qc_is_canon. reflexivity. Qed.

(** The final score as a function of the bid and the error percent. *)
Lemma final_score_eq (a : Qc) (sub : submission Qc) :
  let e := fst (score_submission a sub) in
  snd (score_submission a sub)
  = if Qc_ltb (lit 25) e then lit 0
    else s_bid_amount sub * (lit 1 / (lit 1 + e))
         * (if Qle_bool e (lit 2) then lit 3
            else if Qle_bool e (lit 5) then lit 2
            else if Qle_bool e (lit 10) then num_1_5
            else lit 1).
Proof. reflexivity. Qed.

(** The factor [1 / (1 + e)] for a non-negative error percent. *)
Lemma discount_facts (e : Qc) :
  0 <= e ->
  let x := lit 1 / (lit 1 + e) in
  x * (1 + e) = 1 /\ 0 < x /\ x <= 1.
Proof.
  intros He x.
  assert (0 < 1 + e) as Hpos.
  { apply Qclt_le_trans with 1; [reflexivity|].
    apply Qcle_minus_iff. replace (1 + e + - 1) with e by ring. assumption. }
  assert (1 + e <> 0) as Hne by (intros E; rewrite E in Hpos; discriminate Hpos).
  assert (x * (1 + e) = 1) as Hx.
  { subst x. rewrite lit_1. field. assumption. }
  assert (0 <= x) as Hx0.
  { subst x. rewrite lit_1.
    apply Qc_div_nonneg; [discriminate|apply Qclt_le_weak; assumption]. }
  assert (0 < x) as Hxpos.
  { apply Qcle_lt_or_eq in Hx0 as [Hlt|E]; [assumption|].
    rewrite <- E in Hx. ring_simplify in Hx. discriminate Hx. }
  split; [assumption|]. split; [assumption|].
  apply Qcle_minus_iff. replace (1 + - x) with (x * e).
  - apply Qc_mult_nonneg; assumption.
  - rewrite <- Hx at 1. ring.
Qed.

(** With error percent 0 the full bid is paid three times. *)
Lemma score_without_error (a : Qc) (sub : submission Qc) :
  fst (score_submission a sub) = lit 0 ->
  score_submission a sub = (lit 0, lit 3 * s_bid_amount sub).
Proof.
  intros He. rewrite (surjective_pairing (score_submission a sub)).
  rewrite final_score_eq. cbv zeta. rewrite He. f_equal.
  change (Qc_ltb (lit 25) (lit 0)) with false.
  change (Qle_bool (lit 0) (lit 2)) with true. cbv iota.
  rewrite lit_0, lit_1. field. discriminate.
Qed.

(** X19: a prediction equal to the actual value has error percent 0 and is
    paid three times the bid, whatever the value (zero and negative values
    included). *)
Theorem exact_prediction_triples_bid (sub : submission Qc) :
  score_submission (s_predicted_value sub) sub = (lit 0, lit 3 * s_bid_amount sub).
Proof.
  apply score_without_error.
  unfold score_submission. cbn [fst]. cbn [num_eqb Qc_JsNumber].
  destruct (Qc_eq_bool (s_predicted_value sub) (lit 0)); [reflexivity|].
  cbn [num_mul num_div num_abs num_sub Qc_JsNumber].
  replace (s_predicted_value sub - s_predicted_value sub) with 0 by ring.
  change (Qc_abs 0) with 0. rewrite lit_0. unfold Qcdiv. ring.
Qed.

(** X20: when the actual value is 0 the error percent is 0 for a prediction
    of 0, paid three times the bid, and 100 for any other prediction, which
    loses the bid: the result is [(100, 0)]. *)
Theorem zero_actual_value (sub : submission Qc) :
  score_submission (lit 0) sub
  = if Qc_eq_bool (s_predicted_value sub) (lit 0)
    then (lit 0, lit 3 * s_bid_amount sub)
    else (lit 100, lit 0).
Proof.
  destruct (Qc_eq_bool (s_predicted_value sub) (lit 0)) eqn:E.
  - apply score_without_error. unfold score_submission. cbn [fst num_eqb Qc_JsNumber].
    change (Qc_eq_bool (lit 0) (lit 0)) with true. rewrite E. reflexivity.
  - unfold score_submission. cbn [num_eqb Qc_JsNumber].
    change (Qc_eq_bool (lit 0) (lit 0)) with true.
    rewrite E. reflexivity.
Qed.

(** X21: for a non-negative actual value and a non-negative bid the final
    score is at most three times the bid. *)
Theorem final_score_at_most_triple (a : Qc) (sub : submission Qc) :
  0 <= a -> 0 <= s_bid_amount sub ->
  snd (score_submission a sub) <= lit 3 * s_bid_amount sub.
Proof.
  intros Ha Hb. pose proof (error_percent_nonneg a sub Ha) as He.
  rewrite final_score_eq. cbv zeta.
  set (e := fst (score_submission a sub)) in *.
  destruct (discount_facts e He) as (_ & Hx0 & Hx1).
  set (x := lit 1 / (lit 1 + e)) in *.
  destruct (Qc_ltb (lit 25) e).
  - rewrite lit_0. apply Qc_mult_nonneg; [closed_order|assumption].
  - set (m := if Qle_bool e (lit 2) then _ else _).
    assert (0 <= m /\ m <= lit 3) as [Hm0 Hm3].
    { subst m. destruct (Qle_bool e (lit 2)); [split; closed_order|].
      destruct (Qle_bool e (lit 5)); [split; closed_order|].
      destruct (Qle_bool e (lit 10)); split; closed_order. }
    apply Qcle_trans with (s_bid_amount sub * m).
    + replace (s_bid_amount sub * x * m) with (x * (s_bid_amount sub * m)) by ring.
      replace (s_bid_amount sub * m) with (1 * (s_bid_amount sub * m)) at 2 by ring.
      apply Qcmult_le_compat_r; [assumption|]. apply Qc_mult_nonneg; assumption.
    + replace (s_bid_amount sub * m) with (m * s_bid_amount sub) by ring.
      apply Qcmult_le_compat_r; assumption.
Qed.

(** X23: on exact numbers the teams route answers in descending order of
    balance: no team is listed before a team with a larger balance. *)
Theorem leaderboard_is_sorted (l : list (team Qc)) :
  StronglySorted (fun t u => t_balance u <= t_balance t) (order_by_balance_desc l).
Proof.
  unfold order_by_balance_desc. induction l as [|t l IH]; simpl; [constructor|].
  revert IH. generalize (foldr insert_by_balance [] l). clear l. intros l Hl.
  induction l as [|u l IHl]; simpl.
  - constructor; [constructor|constructor].
  - apply StronglySorted_inv in Hl as [Hl Hu].
    cbn [num_ltb Qc_JsNumber]. unfold Qc_ltb.
    destruct (Qle_bool (t_balance u) (t_balance t)) eqn:E; simpl.
    + apply Qc_leb_le in E.
      constructor; [constructor; assumption|].
      constructor; [assumption|].
      eapply Forall_impl; [exact Hu|]. simpl. intros v Hv.
      eapply Qcle_trans; eassumption.
    + apply Qc_leb_gt in E. apply Qclt_le_weak in E.
      constructor; [apply IHl; assumption|].
      apply Forall_forall. intros v Hv.
      rewrite insert_by_balance_perm in Hv.
      apply elem_of_cons in Hv as [->|Hv]; [assumption|].
      rewrite Forall_forall in Hu. apply Hu. assumption.
Qed.

End ExactPayout.

(** ** Writes seen through the read routes *)

Section RoundTrips.
Context {num : Type} `{JsNumber num}.
Variable foreign_keys : bool.
Variable ADMIN_PASSWORD : option string.

Local Abbreviation round := (round num).
Local Abbreviation pass := (Some (correctPassword ADMIN_PASSWORD)).

(** X25: a socket that connects starts with nothing received (no replay of
    earlier messages) and from then on receives exactly what the clients
    that were already OPEN receive. *)
Theorem new_connection_gets_no_replay (s : server num) (reqs : list request) :
  exists (evs : list (event num)) (others : list (client num)),
    clients (run foreign_keys ADMIN_PASSWORD (ws_connection s) (map Http reqs))
    = others ++ [{| readyState := OPEN; received := evs |}]
    /\ others = deliver evs (clients s).
Proof.
  destruct (requests_deliver foreign_keys ADMIN_PASSWORD (ws_connection s) reqs)
    as (evs & E & _).
  exists evs, (deliver evs (clients s)). split; [|reflexivity].
  rewrite E. unfold ws_connection, deliver. simpl.
  rewrite map_app. simpl. reflexivity.
Qed.

Lemma latest_of_map (f : round -> round) (rs : list round) :
  (forall r, r_id (f r) = r_id r) ->
  forall acc : option round,
    foldl (fun best r =>
             match best with
             | None => Some r
             | Some b => if r_id b <? r_id r then Some r else Some b
             end) (option_map f acc) (map f rs)
    = option_map f
        (foldl (fun best r =>
                  match best with
                  | None => Some r
                  | Some b => if r_id b <? r_id r then Some r else Some b
                  end) acc rs).
Proof.
  intros Hid. induction rs as [|r rs IH]; intros acc; cbn [foldl map]; [reflexivity|].
  rewrite <- IH. f_equal. destruct acc as [b|]; simpl; [|reflexivity].
  rewrite !Hid. destruct (r_id b <? r_id r); reflexivity.
Qed.

(** X26: after the operator reveals the current round, the current-round
    route shows that same round (same id and theme) with the actual value
    just given and status revealed. *)
Theorem revealed_value_is_shown (s : server num) (r : round) (actualValue : num) :
  current_round (db s) = Some r ->
  let s' := fst (handle foreign_keys ADMIN_PASSWORD s
                        (POST_admin_rounds_reveal pass (r_id r) actualValue)) in
  snd (handle foreign_keys ADMIN_PASSWORD s' GET_rounds_current)
  = Resp 200 (JRound (Some {| r_id := r_id r; r_theme := r_theme r;
                              r_actual_value := Some actualValue;
                              r_status := revealed |})).
Proof.
  intros Hcur. simpl. rewrite adminAuth_pass. unfold reveal. simpl.
  unfold current_round in *.
  destruct (settle_all_frame actualValue
              (List.filter (fun sub => s_round_id sub =? r_id r) (submissions (db s)))
              (set_rounds (db s) (map (update_round actualValue (r_id r)) (rounds (db s)))))
    as (E1 & _).
  rewrite E1. simpl.
  pose proof (latest_of_map (update_round actualValue (r_id r)) (rounds (db s))
                            (update_round_id actualValue (r_id r)) None) as Hmap.
  simpl in Hmap. rewrite Hmap, Hcur. simpl.
  unfold update_round. rewrite Z.eqb_refl. reflexivity.
Qed.

(** X27: a submission that is answered 200 is listed by the operator's
    submissions route for its round, with the values as sent, score 0, no
    error_percent, and the name of a team with the submitting id. *)
Theorem accepted_submission_is_listed (s : server num) (teamId roundId : Z)
    (predictedValue bidAmount : num) :
  snd (submit foreign_keys s teamId roundId predictedValue bidAmount) = Resp 200 JSuccess ->
  let s' := fst (submit foreign_keys s teamId roundId predictedValue bidAmount) in
  exists (rows : list (submission num * string)) (id : Z) (name : string),
    snd (handle foreign_keys ADMIN_PASSWORD s' (GET_admin_submissions pass roundId))
    = Resp 200 (JSubmissions rows)
    /\ ({| s_id := id; s_team_id := teamId; s_round_id := roundId;
           s_predicted_value := predictedValue; s_bid_amount := bidAmount;
           s_score := num_of_Z 0; s_error_percent := None |}, name) ∈ rows
    /\ exists t, t ∈ teams (db s) /\ t_id t = teamId /\ t_name t = name.
Proof.
  rewrite submit_eq.
  destruct (can_afford (db s) teamId bidAmount) eqn:Hc; simpl; [|discriminate].
  destruct (has_submitted (db s) teamId roundId); [discriminate|].
  destruct (foreign_keys && negb (foreign_key_ok (db s) teamId roundId)); [discriminate|].
  intros _. simpl. rewrite adminAuth_pass. unfold get_submissions. simpl.
  unfold can_afford in Hc.
  destruct (List.find (fun t => t_id t =? teamId) (teams (db s))) as [t|] eqn:Ht;
    [|discriminate].
  apply find_some in Ht as [Hin Heq]. apply Z.eqb_eq in Heq.
  eexists _, _, (t_name t). split; [reflexivity|]. split.
  - apply list_elem_of_In. unfold submissions_with_team_name. apply in_flat_map.
    eexists. split.
    + apply filter_In. split.
      * simpl. apply in_or_app. right. left. reflexivity.
      * simpl. apply Z.eqb_refl.
    + simpl. apply in_map_iff. exists t. split; [reflexivity|].
      apply filter_In. split; [assumption|]. apply Z.eqb_eq. assumption.
  - exists t. split; [apply list_elem_of_In; assumption|]. split; [assumption|reflexivity].
Qed.

End RoundTrips.

(** ** The further theorems at concrete inputs *)

(** The row of [bid_50_on_100] on exact numbers. *)
Definition bid_50_on_100_exact : submission Qc :=
  {| s_id := 1; s_team_id := 1; s_round_id := 1; s_predicted_value := Q2Qc 100;
     s_bid_amount := Q2Qc 50; s_score := Q2Qc 0; s_error_percent := None |}.

(** The round of [one_bid], open, and the round of [revealed_empty]. *)
Definition rainfall_open : round float :=
  {| r_id := 1; r_theme := "rainfall"; r_actual_value := None; r_status := open |}.

Definition rainfall_revealed : round float :=
  {| r_id := 1; r_theme := "rainfall"; r_actual_value := Some 100%float;
     r_status := revealed |}.

(** Two teams join, a round is started, and the first predicts 100 and bids
    50; the second does not bid. *)
Definition one_bid_of_two : list (input (num := float)) :=
  [ Http (POST_teams_join "ada"); Http (POST_teams_join "bob");
    Http (POST_admin_rounds operator "rainfall");
    Http (POST_submissions 1 1 100%float 50%float) ].

(** A team joins, a round is started, the team predicts 100 and bids 0.1. *)
Definition small_bid : list (input (num := float)) :=
  [ Http (POST_teams_join "ada"); Http (POST_admin_rounds operator "rainfall");
    Http (POST_submissions 1 1 100%float 0x1.999999999999ap-4%float) ].

Section MoreInstances.

(** C8 (the claim fails): with a bid of 0.1 on an exact prediction the score
    is 3 * 0.1 = 0.30000000000000004 and the only balance moves from 2000 to
    2000 - 0.1 + 0.30000000000000004 = 2000.2 on binary64: the sum of the
    balances changes by 0.20000000000004547, while finalScore - bidAmount is
    0.20000000000000004.  The owning team exists. *)
Lemma settlement_rounds_on_binary64 :
  let s := run true None init small_bid in
  let s' := fst (handle true None s (POST_admin_rounds_reveal operator 1 100%float)) in
  map t_id (teams (db s)) = [1] /\ map s_team_id (submissions (db s)) = [1]
  /\ map t_balance (teams (db s)) = [2000%float]
  /\ map t_balance (teams (db s')) = [0x1.f40cccccccccdp+10%float]
  /\ map s_score (submissions (db s')) = [0x1.3333333333334p-2%float]
  /\ (0x1.f40cccccccccdp+10 - 2000 = 0x1.999999999a000p-3)%float
  /\ (0x1.3333333333334p-2 - 0x1.999999999999ap-4 = 0x1.999999999999bp-3)%float
  /\ PrimFloat.eqb 0x1.999999999a000p-3 0x1.999999999999bp-3 = false.
Proof. repeat split; vm_compute; reflexivity. Qed.

(** The second reveal of the round of [one_bid]. *)
Lemma revealed_round_is_settled_again_at_one_bid :
  let s := run true None init
               (one_bid ++ [Http (POST_admin_rounds_reveal operator 1 100%float)]) in
  let request := POST_admin_rounds_reveal (Some (correctPassword None)) 1 100%float in
  let result := handle true None s request in
  snd result = Resp 200 JSuccess
  /\ result = handle true None (with_round_status 1 open s) request
  /\ {| r_id := 1; r_theme := r_theme rainfall_revealed;
        r_actual_value := Some 100%float; r_status := revealed |}
     ∈ rounds (db (fst result))
  /\ submissions (db (fst result))
     = map (fun sub =>
              if s_round_id sub =? 1
              then {| s_id := s_id sub; s_team_id := s_team_id sub;
                      s_round_id := s_round_id sub;
                      s_predicted_value := s_predicted_value sub;
                      s_bid_amount := s_bid_amount sub;
                      s_score := snd (score_submission 100%float sub);
                      s_error_percent := Some (fst (score_submission 100%float sub)) |}
              else sub)
           (submissions (db s))
  /\ teams (db (fst result))
     = map (fun t =>
              match List.find (fun sub => (s_team_id sub =? t_id t) && (s_round_id sub =? 1))
                              (submissions (db s)) with
              | Some sub =>
                  {| t_id := t_id t; t_name := t_name t;
                     t_balance := num_add (num_sub (t_balance t) (s_bid_amount sub))
                                          (snd (score_submission 100%float sub)) |}
              | None => t
              end)
           (teams (db s)).
Proof.
  apply (revealed_round_is_settled_again true None
           (run true None init
                (one_bid ++ [Http (POST_admin_rounds_reveal operator 1 100%float)]))
           1 100%float rainfall_revealed).
  - apply list_elem_of_In. vm_compute. left. reflexivity.
  - reflexivity.
  - reflexivity.
  - vm_compute. constructor; [apply not_elem_of_nil|constructor].
  - unfold one_submission_per_team_and_round. vm_compute.
    constructor; [apply not_elem_of_nil|constructor].
  - vm_compute. reflexivity.
  - intros sub Hsub _. apply list_elem_of_In in Hsub. vm_compute in Hsub.
    destruct Hsub as [<-|[]].
    split; [vm_compute; reflexivity|]. split; [vm_compute; reflexivity|].
    intros t Ht _. apply list_elem_of_In in Ht. vm_compute in Ht.
    destruct Ht as [<-|[]]. vm_compute. reflexivity.
Defined.

(** The reveal at 100 of the round of [one_bid_of_two]: the first team goes
    from 2000 to 2100, the second stays at 2000. *)
Lemma settlement_updates_each_balance_once_at_one_bid_of_two :
  let s := run true None init one_bid_of_two in
  let s' := fst (handle true None s
                        (POST_admin_rounds_reveal (Some (correctPassword None)) 1 100%float)) in
  teams (db s')
  = map (fun t =>
           match List.find (fun sub => (s_team_id sub =? t_id t) && (s_round_id sub =? 1))
                           (submissions (db s)) with
           | Some sub =>
               {| t_id := t_id t; t_name := t_name t;
                  t_balance := num_add (num_sub (t_balance t) (s_bid_amount sub))
                                       (snd (score_submission 100%float sub)) |}
           | None => t
           end)
        (teams (db s))
  /\ map t_balance (teams (db s)) = [2000%float; 2000%float]
  /\ map t_balance (teams (db s')) = [2100%float; 2000%float].
Proof.
  split; [|split; vm_compute; reflexivity].
  apply (proj1 (settlement_updates_each_balance_once true None)
               (run true None init one_bid_of_two) 1 100%float).
  - unfold one_submission_per_team_and_round. vm_compute.
    constructor; [apply not_elem_of_nil|constructor].
  - intros sub t Hsub _ Ht _. apply list_elem_of_In in Hsub. vm_compute in Hsub.
    destruct Hsub as [<-|[]].
    apply list_elem_of_In in Ht. vm_compute in Ht.
    destruct Ht as [<-|[<-|[]]]; vm_compute; reflexivity.
Defined.

(** Setting the title. *)
Lemma setting_update_then_read_at_title :
  let s := run true None init one_bid in
  let s' := fst (handle true None s
                        (POST_admin_settings (Some (correctPassword None))
                                             "game_title" "TIDES")) in
  exists m : gmap string string,
    snd (handle true None s' GET_settings) = Resp 200 (JSettings m)
    /\ m !! "game_title" = Some "TIDES"
    /\ m !! "__proto__" = None
    /\ forall k : string,
         k <> "game_title" -> k <> "__proto__" -> m !! k = settings (db s) !! k.
Proof.
  apply (setting_update_then_read true None (run true None init one_bid)
                                  "game_title" "TIDES").
  discriminate.
Defined.

Lemma rejected_request_changes_nothing_at_excessive_bid :
  fst (handle true None (run true None init one_bid)
              (POST_submissions 1 1 100%float 5000%float))
  = run true None init one_bid.
Proof.
  apply (rejected_request_changes_nothing true None).
  vm_compute. discriminate.
Defined.

Lemma unauthorized_admin_request_at_reset :
  handle true None (run true None init one_bid) (POST_admin_reset (Some "guess"))
  = (run true None init one_bid, Resp 401 (JError "Unauthorized")).
Proof.
  apply (unauthorized_admin_request true None _ _ (Some "guess")).
  - reflexivity.
  - vm_compute. discriminate.
Defined.

Lemma login_agrees_with_adminAuth_at_reset :
  status (snd (login None (run true None init one_bid) (Some "guess"))) = 401
  <-> status (snd (handle true None (run true None init one_bid)
                          (POST_admin_reset (Some "guess")))) = 401.
Proof.
  apply (login_agrees_with_adminAuth true None). reflexivity.
Defined.

Lemma only_latest_round_open_at_one_bid :
  r_status rainfall_open = revealed
  \/ (r_status rainfall_open = open
      /\ 1%nat = length (rounds (db (run true None init one_bid)))
      /\ current_round (db (run true None init one_bid)) = Some rainfall_open).
Proof.
  apply (only_latest_round_open true None one_bid 0 rainfall_open).
  vm_compute. reflexivity.
Defined.

Lemma round_never_reopens_at_next_round :
  let s := run true None init revealed_empty in
  let d' := db (step true None s (Http (POST_admin_rounds operator "tides"))) in
  rounds d' = []
  \/ exists r' : round float,
       rounds d' !! 0%nat = Some r'
       /\ r_id r' = r_id rainfall_revealed /\ r_theme r' = r_theme rainfall_revealed
       /\ (r_status rainfall_revealed = revealed -> r_status r' = revealed)
       /\ (is_Some (r_actual_value rainfall_revealed) -> is_Some (r_actual_value r')).
Proof.
  apply (round_never_reopens true None (run true None init revealed_empty)
                             (Http (POST_admin_rounds operator "tides")) 0 rainfall_revealed).
  vm_compute. reflexivity.
Defined.

Lemma open_round_is_unsettled_at_one_bid :
  s_error_percent bid_50_on_100 = None /\ s_score bid_50_on_100 = num_of_Z 0.
Proof.
  apply (open_round_is_unsettled None one_bid bid_50_on_100 rainfall_open).
  - apply list_elem_of_In. vm_compute. left. reflexivity.
  - apply list_elem_of_In. vm_compute. left. reflexivity.
  - reflexivity.
  - reflexivity.
Defined.

Lemma submissions_listed_with_team_names_at_one_bid :
  let s := run true None init one_bid in
  exists rows : list (submission float * string),
    snd (handle true None s (GET_admin_submissions (Some (correctPassword None)) 1))
    = Resp 200 (JSubmissions rows)
    /\ map fst rows = submissions_of 1 (db s)
    /\ forall sub name, (sub, name) ∈ rows ->
         exists t, t ∈ teams (db s) /\ t_id t = s_team_id sub /\ t_name t = name.
Proof.
  apply (submissions_listed_with_team_names true None (run true None init one_bid) 1).
  - vm_compute. constructor; [apply not_elem_of_nil|constructor].
  - intros sub Hsub. apply list_elem_of_In in Hsub. apply list_elem_of_In.
    vm_compute in Hsub. destruct Hsub as [<-|[]]. vm_compute. left. reflexivity.
Defined.

Lemma final_score_at_most_triple_at_exact_bid :
  (snd (score_submission (Q2Qc 100) bid_50_on_100_exact)
   <= num_of_Z 3 * s_bid_amount bid_50_on_100_exact)%Qc.
Proof.
  apply (final_score_at_most_triple (Q2Qc 100) bid_50_on_100_exact).
  - vm_compute. discriminate.
  - vm_compute. discriminate.
Defined.

Lemma revealed_value_is_shown_at_one_bid :
  let s := run true None init one_bid in
  let s' := fst (handle true None s
                        (POST_admin_rounds_reveal (Some (correctPassword None))
                                                  (r_id rainfall_open) 100%float)) in
  snd (handle true None s' GET_rounds_current)
  = Resp 200 (JRound (Some {| r_id := r_id rainfall_open; r_theme := r_theme rainfall_open;
                              r_actual_value := Some 100%float;
                              r_status := revealed |})).
Proof.
  apply (revealed_value_is_shown true None (run true None init one_bid)
                                 rainfall_open 100%float).
  vm_compute. reflexivity.
Defined.

Lemma accepted_submission_is_listed_at_revealed_round :
  let s := run true None init revealed_empty in
  let s' := fst (submit true s 1 1 100%float 50%float) in
  exists (rows : list (submission float * string)) (id : Z) (name : string),
    snd (handle true None s' (GET_admin_submissions (Some (correctPassword None)) 1))
    = Resp 200 (JSubmissions rows)
    /\ ({| s_id := id; s_team_id := 1; s_round_id := 1;
           s_predicted_value := 100%float; s_bid_amount := 50%float;
           s_score := num_of_Z 0; s_error_percent := None |}, name) ∈ rows
    /\ exists t, t ∈ teams (db s) /\ t_id t = 1 /\ t_name t = name.
Proof.
  apply (accepted_submission_is_listed true None (run true None init revealed_empty)
                                       1 1 100%float 50%float).
  vm_compute. reflexivity.
Defined.

End MoreInstances.
